(** * elysia-convex: route matching and the Convex bridge

    A shallow embedding of [RouteMatcher] and [HttpRouterWithElysia]
    (src/index.ts and its builds) together with the properties of the
    route table, the matcher and the bridge adapter.

    Layout:
    - [JsString]: the string primitives the sources call
      ([includes], [startsWith], [endsWith], the three [replace] calls);
    - [JsRegExp]: [new RegExp(s)] and [regex.test(url)] for characters,
      [.], [^], [$], groups, alternation, sets and the greedy quantifiers;
      [outsideModel] tells the pattern texts that leave this syntax
      (escapes, braces, ranges, lazy quantifiers, group modifiers);
    - [Js]: thrown values and the small state-and-exception monad in which
      the router's methods run;
    - [VariantA]: the first-match router (part_000);
    - [VariantB]: the precedence-aware router with [route(spec)] (part_001),
      over an Elysia app with its prefix and its list of routes;
    - [Dist]: the [find] of the shipped build that scans for a literal
      path first (the build kept next to the README);
    - the theorems. *)

From Stdlib Require Import String Ascii List Bool Arith Lia.
Import ListNotations.
Local Open Scope string_scope.
Local Open Scope list_scope.

Set Implicit Arguments.
Set Warnings "-register-all".

(* ===================================================================== *)
(** * JavaScript strings *)
(* ===================================================================== *)

Module JsString.

(** [\w]: ASCII letters, digits and underscore. *)
Definition isWordChar (c : ascii) : bool :=
  let n := nat_of_ascii c in
  (((48 <=? n) && (n <=? 57)) || ((65 <=? n) && (n <=? 90))
   || ((97 <=? n) && (n <=? 122)) || (n =? 95))%nat.

(** [s.includes(c)] for a one-character needle. *)
Fixpoint includes (c : ascii) (s : string) : bool :=
  match s with
  | EmptyString => false
  | String d s' => Ascii.eqb d c || includes c s'
  end.

(** [s.startsWith(c)] for a one-character needle. *)
Definition startsWith (c : ascii) (s : string) : bool :=
  match s with
  | EmptyString => false
  | String d _ => Ascii.eqb d c
  end.

(** [s.endsWith(c)] for a one-character needle. *)
Fixpoint endsWith (c : ascii) (s : string) : bool :=
  match s with
  | EmptyString => false
  | String d EmptyString => Ascii.eqb d c
  | String _ s' => endsWith c s'
  end.

(** [s.replace(/\*/g, ".*")]: every star becomes dot-star. *)
Fixpoint replaceStars (s : string) : string :=
  match s with
  | EmptyString => EmptyString
  | String c s' =>
      if Ascii.eqb c "*" then String "." (String "*" (replaceStars s'))
      else String c (replaceStars s')
  end.

Definition startsWithWord (s : string) : bool :=
  match s with
  | EmptyString => false
  | String c _ => isWordChar c
  end.

(** The replacement text of the second [replace] call. *)
Definition paramGroup : string := "([^/]+)".

(** [s.replace(/:(\w+)/g, "([^/]+)")]: scanning from the left, a colon
    followed by at least one word character is replaced, together with the
    longest run of word characters after it, by [paramGroup]. [inName] is
    true while the run of word characters of the match in progress is being
    consumed. *)
Fixpoint replaceParams (inName : bool) (s : string) : string :=
  match s with
  | EmptyString => EmptyString
  | String c s' =>
      if inName && isWordChar c then replaceParams true s'
      else if Ascii.eqb c ":" && startsWithWord s'
           then paramGroup ++ replaceParams true s'
           else String c (replaceParams false s')
  end.

(** [s.replace(/\/$/, "")]: one slash at the very end is removed. *)
Fixpoint stripTrailingSlash (s : string) : string :=
  match s with
  | EmptyString => EmptyString
  | String c EmptyString => if Ascii.eqb c "/" then EmptyString else s
  | String c s' => String c (stripTrailingSlash s')
  end.

End JsString.

(* ===================================================================== *)
(** * Regular expressions *)
(* ===================================================================== *)

Module JsRegExp.

(** The patterns reached from route paths: characters, [.], character
    sets without ranges, the assertions [^] and [$], groups, alternation
    and the three greedy quantifiers. [RBar] is the separator the reader
    leaves between two alternatives; [collect] removes it, so it is in no
    pattern [RegExp] returns. *)
Inductive re : Type :=
| RChar (c : ascii)
| RAny
| RSet (negated : bool) (cs : list ascii)
| RBol
| REol
| RSeq (rs : list re)
| RStar (r : re)
| RPlus (r : re)
| ROpt (r : re)
| RAlt (alts : list re)
| RBar.

(** ** Reading a pattern

    The pattern text is read left to right. [frames] holds the terms of
    the enclosing groups, [cur] the terms of the innermost open group, both
    most recent first. *)
Inductive mode : Type :=
| InPattern
| ClassOpen
| InClass (negated : bool) (acc : list ascii).

Record pstate : Type := mkP {
  frames : list (list re);
  cur : list re;
  pmode : mode
}.

Definition start : pstate := mkP [] [] InPattern.

Definition push (r : re) (st : pstate) : pstate :=
  mkP (frames st) (r :: cur st) InPattern.

(** A quantifier needs an atom before it: an assertion, an already
    quantified term or the beginning of an alternative is nothing to
    repeat. *)
Definition quantifiable (r : re) : bool :=
  match r with
  | RChar _ | RAny | RSet _ _ | RSeq _ | RAlt _ => true
  | RBol | REol | RStar _ | RPlus _ | ROpt _ | RBar => false
  end.

Definition quantify (q : re -> re) (st : pstate) : option pstate :=
  match cur st with
  | r :: rest =>
      if quantifiable r then Some (mkP (frames st) (q r :: rest) InPattern)
      else None
  | [] => None
  end.

Definition isBar (r : re) : bool :=
  match r with
  | RBar => true
  | _ => false
  end.

Definition hasBar (ts : list re) : bool := existsb isBar ts.

(** The alternatives of a group's terms, in reading order. *)
Fixpoint alternatives (ts : list re) : list (list re) :=
  match ts with
  | [] => [[]]
  | t :: ts' =>
      if isBar t then [] :: alternatives ts'
      else match alternatives ts' with
           | a :: rest => (t :: a) :: rest
           | [] => [[t]]
           end
  end.

(** The pattern of a group (or of the whole text) from its terms: their
    sequence, or the alternation of the sequences between the bars. *)
Definition collect (ts : list re) : re :=
  if hasBar ts then RAlt (map RSeq (alternatives ts)) else RSeq ts.

Definition openGroup (st : pstate) : pstate :=
  mkP (cur st :: frames st) [] InPattern.

Definition closeGroup (st : pstate) : option pstate :=
  match frames st with
  | outer :: fs => Some (mkP fs (collect (rev (cur st)) :: outer) InPattern)
  | [] => None
  end.

(** Characters with a meaning of their own in a pattern. *)
Definition specials : list ascii :=
  ["^"; "$"; "."; "*"; "+"; "?"; "("; ")"; "["; "]"; "{"; "}"; "|"; "\"]%char.

Definition isSpecial (c : ascii) : bool := existsb (Ascii.eqb c) specials.

(** A closing bracket or brace with nothing to close stands for itself
    (the pattern language of web browsers, without the [u] flag). A
    backslash and an opening brace are not read: see [stepBeyond]. *)
Definition stepSpecial (c : ascii) (st : pstate) : option pstate :=
  if Ascii.eqb c "^" then Some (push RBol st)
  else if Ascii.eqb c "$" then Some (push REol st)
  else if Ascii.eqb c "." then Some (push RAny st)
  else if Ascii.eqb c "*" then quantify RStar st
  else if Ascii.eqb c "+" then quantify RPlus st
  else if Ascii.eqb c "?" then quantify ROpt st
  else if Ascii.eqb c "(" then Some (openGroup st)
  else if Ascii.eqb c ")" then closeGroup st
  else if Ascii.eqb c "[" then Some (mkP (frames st) (cur st) ClassOpen)
  else if Ascii.eqb c "|" then Some (push RBar st)
  else if Ascii.eqb c "]" || Ascii.eqb c "}" then Some (push (RChar c) st)
  else None.

Definition classChar (negated : bool) (acc : list ascii) (c : ascii)
    (st : pstate) : option pstate :=
  if Ascii.eqb c "]" then Some (push (RSet negated (rev acc)) st)
  else if Ascii.eqb c "\" || Ascii.eqb c "-" then None
  else Some (mkP (frames st) (cur st) (InClass negated (c :: acc))).

Definition step (c : ascii) (st : pstate) : option pstate :=
  match pmode st with
  | InPattern =>
      if isSpecial c then stepSpecial c st else Some (push (RChar c) st)
  | ClassOpen =>
      if Ascii.eqb c "^"
      then Some (mkP (frames st) (cur st) (InClass true []))
      else classChar false [] c st
  | InClass negated acc => classChar negated acc c st
  end.

Fixpoint parseFrom (st : pstate) (s : string) : option pstate :=
  match s with
  | EmptyString => Some st
  | String c s' =>
      match step c st with
      | Some st' => parseFrom st' s'
      | None => None
      end
  end.

Definition finish (st : pstate) : option re :=
  match pmode st, frames st with
  | InPattern, [] => Some (collect (rev (cur st)))
  | _, _ => None
  end.

(** [new RegExp(s)] without flags, for the patterns read here. [None]
    stands for the constructor not returning a pattern this model reads:
    either the [SyntaxError] of JavaScript (nothing to repeat, an unmatched
    parenthesis, an unterminated group or class), or, where [outsideModel]
    says so, syntax that is not interpreted here. *)
Definition RegExp (s : string) : option re :=
  match parseFrom start s with
  | Some st => finish st
  | None => None
  end.

(** ** Syntax that is not read

    [step] stops at a character whose meaning is not modelled: a backslash
    (escapes), an opening brace (a counted quantifier, or a brace that
    stands for itself), a backslash or a dash inside a class (escapes and
    ranges), and a question mark after a quantifier (a lazy quantifier) or
    right after an opening parenthesis (a group modifier: non-capturing and
    named groups, lookahead and lookbehind). At these JavaScript may
    compile the pattern; everywhere else a [step] or a [finish] that gives
    [None] is a [SyntaxError] of JavaScript. *)
Definition stepBeyond (c : ascii) (st : pstate) : bool :=
  match pmode st with
  | InPattern =>
      Ascii.eqb c "\" || Ascii.eqb c "{"
      || (Ascii.eqb c "?"
          && match cur st, frames st with
             | [], _ :: _ => true
             | (RStar _ | RPlus _ | ROpt _) :: _, _ => true
             | _, _ => false
             end)
  | ClassOpen | InClass _ _ => Ascii.eqb c "\" || Ascii.eqb c "-"
  end.

Fixpoint beyondFrom (st : pstate) (s : string) : bool :=
  match s with
  | EmptyString => false
  | String c s' =>
      match step c st with
      | Some st' => beyondFrom st' s'
      | None => stepBeyond c st
      end
  end.

(** The pattern text leaves the syntax read here before any error in
    it. *)
Definition outsideModel (s : string) : bool := beyondFrom start s.

(** ** Matching

    A position is the rest of the input and whether it is the start of
    the input. The matcher is written with a continuation; [test] only asks
    whether some match exists, so the order in which a backtracking engine
    tries the alternatives does not show. *)
Definition pos : Type := (bool * string)%type.

Definition rest (p : pos) : string := snd p.
Definition atStart (p : pos) : bool := fst p.

(** [.] matches every character but a line terminator. *)
Definition isLineTerminator (c : ascii) : bool :=
  Ascii.eqb c "010" || Ascii.eqb c "013".

Definition oneChar (ok : ascii -> bool) (k : pos -> bool) (p : pos) : bool :=
  match rest p with
  | String c s' => ok c && k (false, s')
  | EmptyString => false
  end.

(** Greedy repetition of a matcher [m]: an iteration that consumes nothing
    is not repeated, so [n], the length of the input left, bounds the
    number of iterations. *)
Definition starOf (m : (pos -> bool) -> pos -> bool) (k : pos -> bool)
  : nat -> pos -> bool :=
  fix star (n : nat) (p : pos) : bool :=
    k p ||
    match n with
    | O => false
    | S n' =>
        m (fun p' =>
             (String.length (rest p') <? String.length (rest p))%nat
             && star n' p') p
    end.

Fixpoint matchRe (r : re) (k : pos -> bool) (p : pos) {struct r} : bool :=
  match r with
  | RChar c => oneChar (Ascii.eqb c) k p
  | RAny => oneChar (fun d => negb (isLineTerminator d)) k p
  | RSet negated cs =>
      oneChar (fun d => xorb negated (existsb (Ascii.eqb d) cs)) k p
  | RBol => atStart p && k p
  | REol => match rest p with EmptyString => k p | String _ _ => false end
  | RSeq rs =>
      (fix seq (rs : list re) (k : pos -> bool) : pos -> bool :=
         match rs with
         | [] => k
         | r :: rs' => matchRe r (seq rs' k)
         end) rs k p
  | ROpt r => matchRe r k p || k p
  | RStar r => starOf (matchRe r) k (String.length (rest p)) p
  | RPlus r =>
      matchRe r (fun p1 => starOf (matchRe r) k (String.length (rest p1)) p1) p
  | RAlt alts =>
      (fix alt (rs : list re) : bool :=
         match rs with
         | [] => false
         | r :: rs' => matchRe r k p || alt rs'
         end) alts
  | RBar => false
  end.

(** The terms of a sequence, one after the other. *)
Fixpoint matchSeq (rs : list re) (k : pos -> bool) : pos -> bool :=
  match rs with
  | [] => k
  | r :: rs' => matchRe r (matchSeq rs' k)
  end.

Definition matchAt (r : re) (p : pos) : bool := matchRe r (fun _ => true) p.

(** The match may begin at any index of the input. *)
Fixpoint search (r : re) (isStart : bool) (s : string) : bool :=
  matchAt r (isStart, s) ||
  match s with
  | EmptyString => false
  | String _ s' => search r false s'
  end.

(** [regex.test(url)] for a regex without the global or sticky flag. *)
Definition test (r : re) (url : string) : bool := search r true url.

End JsRegExp.

Import JsString JsRegExp.

(* ===================================================================== *)
(** * Thrown values, state and exceptions *)
(* ===================================================================== *)

Module Js.

(** What a [throw] carries: an [Error] with its message, the
    [SyntaxError] of the [RegExp] constructor with the offending pattern,
    or any other value raised by foreign code. [Unmodelled] is no value of
    JavaScript: a method ends with it where [new RegExp] is given a pattern
    whose syntax [JsRegExp] does not read, and nothing is stated of the
    code from there on. *)
Inductive exn : Type :=
| Error (message : string)
| SyntaxError (pattern : string)
| Thrown (value : string)
| Unmodelled (pattern : string).

Inductive outcome (A : Type) : Type :=
| Return (a : A)
| Throw (e : exn).

Arguments Return {A} a.
Arguments Throw {A} e.

(** A method body over a mutable object of type [S]: the mutations made
    before a [throw] stay. *)
Definition M (S A : Type) : Type := S -> outcome A * S.

Definition ret {S A} (a : A) : M S A := fun s => (Return a, s).

Definition throw {S A} (e : exn) : M S A := fun s => (Throw e, s).

Definition bind {S A B} (c : M S A) (k : A -> M S B) : M S B :=
  fun s =>
    match c s with
    | (Return a, s') => k a s'
    | (Throw e, s') => (Throw e, s')
    end.

(** [xs.forEach(f)]. *)
Fixpoint forEach {S A} (xs : list A) (f : A -> M S unit) : M S unit :=
  match xs with
  | [] => ret tt
  | x :: xs' => bind (f x) (fun _ => forEach xs' f)
  end.

End Js.

Import Js.

Notation "x <- c ;; k" := (bind c (fun x => k))
  (at level 61, c at next level, right associativity).
Notation "c ;;; k" := (bind c (fun _ => k))
  (at level 61, right associativity).

(* ===================================================================== *)
(** * Routes of the embedded app and of the host *)
(* ===================================================================== *)

(** A handler of an Elysia route is a function or a static value. *)
Inductive Handler : Type :=
| HFunction (id : nat)
| HValue (v : string).

(** [Pick<InternalRoute, "method" | "path" | "handler">]. *)
Record InternalRoute : Type := mkRoute {
  method : string;
  path : string;
  handler : Handler
}.

(** What [toConvexRoutes] puts third in a tuple: the route's function, or
    the empty arrow function when the handler is not a function. *)
Inductive Callable : Type :=
| Fn (id : nat)
| Noop.

Definition callable (h : Handler) : Callable :=
  match h with
  | HFunction id => Fn id
  | HValue _ => Noop
  end.

Definition ConvexRoute : Type := (string * string * Callable)%type.

(** [ROUTABLE_HTTP_METHODS] of convex/server. *)
Definition ROUTABLE_HTTP_METHODS : list string :=
  ["GET"; "POST"; "PUT"; "DELETE"; "OPTIONS"; "PATCH"].

Definition isRoutable (m : string) : bool :=
  existsb (String.eqb m) ROUTABLE_HTTP_METHODS.

(** [{ ...route, method }]. *)
Definition withMethod (r : InternalRoute) (m : string) : InternalRoute :=
  mkRoute m (path r) (handler r).

(** Normalizes HTTP method 'HEAD' to 'GET' for consistency. *)
Definition normalizeMethod (m : string) : string :=
  if String.eqb m "HEAD" then "GET" else m.

(** The one [PublicHttpAction] a router holds. *)
Inductive PublicHttpAction : Type := TheHandler.

(** What [new RegExp(regexStr)] ends with when it gives no pattern. *)
Definition compileError (regexStr : string) : exn :=
  if outsideModel regexStr then Unmodelled regexStr else SyntaxError regexStr.

(* ===================================================================== *)
(** * Variant A: first match in registration order (part_000) *)
(* ===================================================================== *)

Module VariantA.

Record CompiledRoute : Type := mkCompiled {
  route : InternalRoute;
  regex : re
}.

(** The [routes] array of a [RouteMatcher]. *)
Definition RouteMatcher : Type := list CompiledRoute.

Definition regexStr (p : string) : string :=
  replaceParams false (replaceStars p) ++ "$".

Definition add (r : InternalRoute) : M RouteMatcher unit :=
  fun routes =>
    match RegExp (regexStr (path r)) with
    | Some rx => (Return tt, routes ++ [mkCompiled r rx])
    | None => (Throw (compileError (regexStr (path r))), routes)
    end.

Fixpoint find (m url : string) (routes : RouteMatcher) : option string :=
  match routes with
  | [] => None
  | e :: routes' =>
      if String.eqb (method (route e)) m && test (regex e) url
      then Some (path (route e))
      else find m url routes'
  end.

Definition toConvexRoutes (routes : RouteMatcher) : list ConvexRoute :=
  map (fun e => (path (route e), method (route e), callable (handler (route e))))
      routes.

End VariantA.

(* ===================================================================== *)
(** * Variant B: non-wildcard routes before wildcard routes (part_001) *)
(* ===================================================================== *)

Module VariantB.

(** ** class RouteMatcher *)
Module Matcher.

Record CompiledRoute : Type := mkCompiled {
  route : InternalRoute;
  regex : re;
  isWildcard : bool
}.

Definition RouteMatcher : Type := list CompiledRoute.

Definition regexStr (p : string) : string :=
  "^" ++ stripTrailingSlash (replaceParams false (replaceStars p)) ++ "/?$".

(** What [add] pushes for a route, when the pattern compiles. *)
Definition compile (r : InternalRoute) : option CompiledRoute :=
  match RegExp (regexStr (path r)) with
  | Some rx => Some (mkCompiled r rx (includes "*" (path r)))
  | None => None
  end.

Definition add (r : InternalRoute) : M RouteMatcher unit :=
  fun routes =>
    match compile r with
    | Some e => (Return tt, routes ++ [e])
    | None => (Throw (compileError (regexStr (path r))), routes)
    end.

(** One [for ... of] loop of [find]: the path of the first entry that
    satisfies the loop's condition. *)
Fixpoint firstPath (cond : CompiledRoute -> bool) (routes : RouteMatcher)
  : option string :=
  match routes with
  | [] => None
  | e :: routes' =>
      if cond e then Some (path (route e)) else firstPath cond routes'
  end.

Definition hits (m url : string) (e : CompiledRoute) : bool :=
  String.eqb (method (route e)) m && test (regex e) url.

Definition find (m url : string) (routes : RouteMatcher) : option string :=
  match firstPath (fun e => negb (isWildcard e) && hits m url e) routes with
  | Some p => Some p
  | None => firstPath (fun e => isWildcard e && hits m url e) routes
  end.

Definition toConvexRoutes (routes : RouteMatcher) : list ConvexRoute :=
  map (fun e => (path (route e), method (route e), callable (handler (route e))))
      routes.

End Matcher.

(** ** class HttpRouterWithElysia *)
Module Router.

Import Matcher.

(** The part of the Elysia instance the router reads and writes: the
    [prefix] of its configuration (empty when none was given) and its
    list of routes. *)
Record Elysia : Type := mkElysia {
  config_prefix : string;
  routes : list InternalRoute
}.

(** An app without a prefix: [new Elysia()] and the routes declared on
    it. *)
Definition mkApp (rs : list InternalRoute) : Elysia := mkElysia "" rs.

(** [app.route(method, path, handler)] of Elysia, for a method in upper
    case and a path that starts with a slash, as [route] below passes them:
    taken to append one route to the app's list, whose path is the app's
    prefix followed by the path given. *)
Definition app_route (m p : string) (h : Handler) (app : Elysia) : Elysia :=
  mkElysia (config_prefix app)
           (routes app ++ [mkRoute m (config_prefix app ++ p) h]).

Record HttpRouterWithElysia : Type := mkRouter {
  _app : Elysia;
  _routeMatcher : RouteMatcher
}.

(** [new HttpRouterWithElysia(app)]. *)
Definition new (app : Elysia) : HttpRouterWithElysia := mkRouter app [].

(** A method of [this._routeMatcher] called from the router. *)
Definition onMatcher {A} (c : M RouteMatcher A) : M HttpRouterWithElysia A :=
  fun this =>
    match c (_routeMatcher this) with
    | (o, rm) => (o, mkRouter (_app this) rm)
    end.

Definition getRoutes : M HttpRouterWithElysia (list ConvexRoute) :=
  forEach ROUTABLE_HTTP_METHODS (fun m =>
    fun this =>
      forEach (routes (_app this)) (fun r =>
        if String.eqb (method r) m || String.eqb (method r) "ALL"
        then onMatcher (add (withMethod r m))
        else ret tt) this) ;;;
  fun this => (Return (toConvexRoutes (_routeMatcher this)), this).

Definition lookup (p m : string)
  : M HttpRouterWithElysia (PublicHttpAction * string * string) :=
  getRoutes ;;;
  fun this =>
    let r := find m p (_routeMatcher this) in
    (Return (TheHandler, normalizeMethod m,
             match r with Some q => q | None => p end), this).

(** [RouteSpec] as the object [route] inspects: a key that is absent is
    [None]. *)
Record RouteSpec : Type := mkSpec {
  spec_handler : option Handler;
  spec_method : option string;
  spec_path : option string;
  spec_pathPrefix : option string
}.

(** A string in a condition: the empty string is false. *)
Definition truthy (s : option string) : bool :=
  match s with
  | Some EmptyString => false
  | Some _ => true
  | None => false
  end.

Definition registerInApp (m p : string) (h : Handler)
  : M HttpRouterWithElysia unit :=
  fun this => (Return tt, mkRouter (app_route m p h (_app this)) (_routeMatcher this)).

Definition route (spec : RouteSpec) : M HttpRouterWithElysia unit :=
  getRoutes ;;;
  match spec_handler spec with
  | None => throw (Error "route requires handler")
  | Some h =>
  if negb (truthy (spec_method spec)) then throw (Error "route requires method")
  else
  let m := match spec_method spec with Some m => m | None => "" end in
  if negb (isRoutable m)
  then throw (Error ("'" ++ m ++ "' is not an allowed HTTP method (like GET, POST, PUT etc.)"))
  else
  match spec_path spec, spec_pathPrefix spec with
  | Some p, Some _ =>
      throw (Error "Invalid httpRouter route: cannot contain both 'path' and 'pathPrefix'")
  | Some p, None =>
      if negb (startsWith "/" p)
      then throw (Error ("path '" ++ p ++ "' does not start with a /"))
      else fun this =>
        let r := find m p (_routeMatcher this) in
        if truthy r
        then throw (Error ("Path '" ++ p ++ "' for method " ++ m ++ " already in use")) this
        else registerInApp m p h this
  | None, Some pre =>
      if negb (startsWith "/" pre)
      then throw (Error ("pathPrefix '" ++ pre ++ "' does not start with a /"))
      else if negb (endsWith "/" pre)
      then throw (Error ("pathPrefix " ++ pre ++ " must end with a /"))
      else fun this =>
        let r := find m pre (_routeMatcher this) in
        if truthy r && negb (match r with Some q => String.eqb q pre | None => false end)
        then throw (Error ("Path '" ++ pre ++ "' for method " ++ m
                           ++ " already in use, found "
                           ++ match r with Some q => q | None => "" end)) this
        else registerInApp m (pre ++ "*") h this
  | None, None => ret tt
  end
  end.

End Router.

End VariantB.

(* ===================================================================== *)
(** * The shipped build: a literal scan before the two passes *)
(* ===================================================================== *)

Module Dist.

Import VariantB.Matcher.

(** [this.routes.find(x => x.route.path === url && x.route.method === method)]. *)
Fixpoint perfectMatch (m url : string) (routes : RouteMatcher)
  : option CompiledRoute :=
  match routes with
  | [] => None
  | x :: routes' =>
      if String.eqb (path (route x)) url && String.eqb (method (route x)) m
      then Some x
      else perfectMatch m url routes'
  end.

Definition find (m url : string) (routes : RouteMatcher) : option string :=
  match perfectMatch m url routes with
  | Some x => Some (path (route x))
  | None => VariantB.Matcher.find m url routes
  end.

(** ** class HttpRouterWithElysia of the shipped build *)
Module Router.

Import VariantB.Router.

(** [getRoutes] of the build has the text of the source's. *)
Definition getRoutes : M HttpRouterWithElysia (list ConvexRoute) :=
  VariantB.Router.getRoutes.

Definition lookup (p m : string)
  : M HttpRouterWithElysia (PublicHttpAction * string * string) :=
  getRoutes ;;;
  fun this =>
    let r := find m p (_routeMatcher this) in
    (Return (TheHandler, normalizeMethod m,
             match r with Some q => q | None => p end), this).

(** [route] of the build: the prefix branch looks up, and compares with,
    the prefix followed by a star. *)
Definition route (spec : RouteSpec) : M HttpRouterWithElysia unit :=
  getRoutes ;;;
  match spec_handler spec with
  | None => throw (Error "route requires handler")
  | Some h =>
  if negb (truthy (spec_method spec)) then throw (Error "route requires method")
  else
  let m := match spec_method spec with Some m => m | None => "" end in
  if negb (isRoutable m)
  then throw (Error ("'" ++ m ++ "' is not an allowed HTTP method (like GET, POST, PUT etc.)"))
  else
  match spec_path spec, spec_pathPrefix spec with
  | Some p, Some _ =>
      throw (Error "Invalid httpRouter route: cannot contain both 'path' and 'pathPrefix'")
  | Some p, None =>
      if negb (startsWith "/" p)
      then throw (Error ("path '" ++ p ++ "' does not start with a /"))
      else fun this =>
        let r := find m p (_routeMatcher this) in
        if truthy r
        then throw (Error ("Path '" ++ p ++ "' for method " ++ m ++ " already in use")) this
        else registerInApp m p h this
  | None, Some pre =>
      if negb (startsWith "/" pre)
      then throw (Error ("pathPrefix '" ++ pre ++ "' does not start with a /"))
      else if negb (endsWith "/" pre)
      then throw (Error ("pathPrefix " ++ pre ++ " must end with a /"))
      else fun this =>
        let r := find m (pre ++ "*") (_routeMatcher this) in
        if truthy r
           && negb (match r with
                    | Some q => String.eqb q (pre ++ "*")
                    | None => false
                    end)
        then throw (Error ("Path '" ++ pre ++ "' for method " ++ m
                           ++ " already in use, found "
                           ++ match r with Some q => q | None => "" end)) this
        else registerInApp m (pre ++ "*") h this
  | None, None => ret tt
  end
  end.

End Router.

End Dist.

(* ===================================================================== *)
(** * The router of Variant A (part_000) *)
(* ===================================================================== *)

Module VariantARouter.

Import VariantA.

Record HttpRouterWithElysia : Type := mkRouter {
  _app : VariantB.Router.Elysia;
  _routeMatcher : RouteMatcher
}.

(** [new HttpRouterWithElysia(app)]. *)
Definition new (app : VariantB.Router.Elysia) : HttpRouterWithElysia :=
  mkRouter app [].

Definition onMatcher {A} (c : M RouteMatcher A) : M HttpRouterWithElysia A :=
  fun this =>
    match c (_routeMatcher this) with
    | (o, rm) => (o, mkRouter (_app this) rm)
    end.

Definition getRoutes : M HttpRouterWithElysia (list ConvexRoute) :=
  forEach ROUTABLE_HTTP_METHODS (fun m =>
    fun this =>
      forEach (VariantB.Router.routes (_app this)) (fun r =>
        if String.eqb (method r) m || String.eqb (method r) "ALL"
        then onMatcher (add (withMethod r m))
        else ret tt) this) ;;;
  fun this => (Return (toConvexRoutes (_routeMatcher this)), this).

Definition lookup (p m : string)
  : M HttpRouterWithElysia (PublicHttpAction * string * string) :=
  getRoutes ;;;
  fun this =>
    let r := find m p (_routeMatcher this) in
    (Return (TheHandler, normalizeMethod m,
             match r with Some q => q | None => p end), this).

End VariantARouter.

(* ===================================================================== *)
(** * The dispatch entry point *)
(* ===================================================================== *)

Module Dispatch.

(** [new Response(body, { status })]. *)
Record Response : Type := mkResponse {
  body : string;
  status : nat
}.

Section EntryPoint.

Variables Ctx Request AppState : Type.

(** What the entry point can touch: the slot [decorator.ctx] of the app,
    the rest of the app's state, and the console. *)
Record World : Type := mkWorld {
  decorator_ctx : option Ctx;
  app_state : AppState;
  console : list exn
}.

(** [_app.handle(request)], awaited: Elysia's own dispatch, which returns a
    response or raises. *)
Variable handle : Request -> M World Response.

Definition set_ctx (ctx : Ctx) : M World unit :=
  fun w => (Return tt, mkWorld (Some ctx) (app_state w) (console w)).

Definition console_log (e : exn) : M World unit :=
  fun w => (Return tt, mkWorld (decorator_ctx w) (app_state w) (console w ++ [e])).

(** [try { body } catch (e) { handler }]. *)
Definition try_catch {A} (body : M World A) (handler : exn -> M World A)
  : M World A :=
  fun w =>
    match body w with
    | (Return a, w') => (Return a, w')
    | (Throw e, w') => handler e w'
    end.

Definition internalServerError : Response :=
  mkResponse "Internal Server Error" 500.

(** The function given to [httpActionGeneric] in the constructor. *)
Definition _handler (ctx : Ctx) (request : Request) : M World Response :=
  set_ctx ctx ;;;
  try_catch (handle request)
    (fun e => console_log e ;;; ret internalServerError).

End EntryPoint.

End Dispatch.

(* ===================================================================== *)
(** * Facts about strings, patterns and matching *)
(* ===================================================================== *)

Module RegExpFacts.

#[local] Arguments Ascii.eqb : simpl never.
#[local] Arguments String.eqb : simpl never.

Fixpoint allChars (ok : ascii -> bool) (s : string) : bool :=
  match s with
  | EmptyString => true
  | String c s' => ok c && allChars ok s'
  end.

(** A character that stands for itself in a path and in a pattern. *)
Definition literalChar (c : ascii) : bool :=
  negb (isSpecial c) && negb (Ascii.eqb c ":").

(** A path without parameters, wildcards and pattern characters. *)
Definition literalPath (p : string) : bool := allChars literalChar p.

(** The pattern terms of a literal text, most recent first. *)
Fixpoint charsRev (s : string) (acc : list re) : list re :=
  match s with
  | EmptyString => acc
  | String c s' => charsRev s' (RChar c :: acc)
  end.

Fixpoint chars (s : string) : list re :=
  match s with
  | EmptyString => []
  | String c s' => RChar c :: chars s'
  end.

(** [afterPrefix lit s]: what is left of [s] after the prefix [lit]. *)
Fixpoint afterPrefix (lit s : string) : option string :=
  match lit, s with
  | EmptyString, _ => Some s
  | String c lit', String d s' =>
      if Ascii.eqb c d then afterPrefix lit' s' else None
  | String _ _, EmptyString => None
  end.

(** The continuation at the end of the input. *)
Definition atEnd (p : pos) : bool :=
  match rest p with EmptyString => true | String _ _ => false end.

(** The continuation of an optional slash at the end of the input. *)
Definition slashThenEnd (p : pos) : bool :=
  matchSeq [ROpt (RChar "/"); REol] (fun _ => true) p.

(** The outermost frame of a parser state. *)
Fixpoint outermost (fs : list (list re)) (c : list re) : list re :=
  match fs with
  | [] => c
  | f :: fs' => outermost fs' f
  end.

(** How pattern texts are told apart: read, rejected, or left unread. *)
Lemma RegExp_examples :
  RegExp "a]}" = Some (RSeq [RChar "a"; RChar "]"; RChar "}"])
  /\ RegExp "^/a|b/?$"
     = Some (RAlt [RSeq [RBol; RChar "/"; RChar "a"];
                   RSeq [RChar "b"; ROpt (RChar "/"); REol]])
  /\ RegExp "(a|)*" = Some (RSeq [RStar (RAlt [RSeq [RChar "a"]; RSeq []])])
  /\ (RegExp "a**" = None /\ outsideModel "a**" = false)
  /\ (RegExp "^*" = None /\ outsideModel "^*" = false)
  /\ (RegExp "a|*" = None /\ outsideModel "a|*" = false)
  /\ (RegExp "^/a(/?$" = None /\ outsideModel "^/a(/?$" = false)
  /\ (RegExp "a)" = None /\ outsideModel "a)" = false)
  /\ (RegExp "[ab" = None /\ outsideModel "[ab" = false)
  /\ (RegExp "a*?" = None /\ outsideModel "a*?" = true)
  /\ (RegExp "(?:a)" = None /\ outsideModel "(?:a)" = true)
  /\ (RegExp "[a-z]" = None /\ outsideModel "[a-z]" = true)
  /\ (RegExp "\d" = None /\ outsideModel "\d" = true)
  /\ (RegExp "^/items/{id}/?$" = None
      /\ outsideModel "^/items/{id}/?$" = true).
Proof. repeat split; vm_compute; reflexivity. Qed.

Lemma string_app_nil_r (a : string) : (a ++ "" = a)%string.
Proof. induction a as [|x a IH]; simpl; [reflexivity | now rewrite IH]. Qed.

Lemma string_length_app (a b : string) :
  String.length (a ++ b) = String.length a + String.length b.
Proof. induction a as [|x a IH]; simpl; [reflexivity | now rewrite IH]. Qed.

Lemma string_app_inv_head (a x y : string) :
  (a ++ x = a ++ y)%string -> x = y.
Proof.
  induction a as [|c a IH]; simpl; intro H; [exact H|].
  injection H as H. now apply IH.
Qed.

Lemma charsRev_spec (s : string) (acc : list re) :
  charsRev s acc = rev (chars s) ++ acc.
Proof.
  revert acc; induction s as [|c s IH]; intro acc; simpl.
  - reflexivity.
  - rewrite IH, <- app_assoc. reflexivity.
Qed.

Lemma matchRe_seq (rs : list re) (k : pos -> bool) (p : pos) :
  matchRe (RSeq rs) k p = matchSeq rs k p.
Proof.
  revert k p; induction rs as [|r rs IH]; intros k p.
  - reflexivity.
  - simpl. f_equal.
Qed.

Lemma matchSeq_app (a b : list re) (k : pos -> bool) :
  matchSeq (a ++ b) k = matchSeq a (matchSeq b k).
Proof.
  induction a as [|r a IH]; simpl; [reflexivity | now rewrite IH].
Qed.

Lemma parseFrom_app (s1 s2 : string) (st : pstate) :
  parseFrom st (s1 ++ s2)%string =
  match parseFrom st s1 with
  | Some st' => parseFrom st' s2
  | None => None
  end.
Proof.
  revert st; induction s1 as [|c s1 IH]; intro st; simpl.
  - reflexivity.
  - destruct (step c st); [apply IH | reflexivity].
Qed.

Lemma allChars_weaken (ok ok' : ascii -> bool) (s : string) :
  (forall c, ok c = true -> ok' c = true) ->
  allChars ok s = true -> allChars ok' s = true.
Proof.
  intro H; induction s as [|c s IH]; simpl; [reflexivity|].
  intro A. apply andb_true_iff in A as [A1 A2].
  rewrite (H _ A1), (IH A2). reflexivity.
Qed.

(** Reading literal text pushes one character term per character. *)
Lemma parseFrom_literal (s : string) (st : pstate) :
  allChars (fun c => negb (isSpecial c)) s = true ->
  pmode st = InPattern ->
  parseFrom st s = Some (mkP (frames st) (charsRev s (cur st)) InPattern).
Proof.
  revert st; induction s as [|c s IH]; intros st A Hm; simpl in *.
  - destruct st as [fs cs m]; simpl in *; now subst.
  - apply andb_true_iff in A as [A1 A2].
    unfold step. rewrite Hm.
    apply negb_true_iff in A1. rewrite A1.
    rewrite (IH (push (RChar c) st) A2 eq_refl). reflexivity.
Qed.

Lemma replaceStars_literal (s : string) :
  allChars (fun c => negb (isSpecial c)) s = true -> replaceStars s = s.
Proof.
  induction s as [|c s IH]; simpl; [reflexivity|].
  intro A. apply andb_true_iff in A as [A1 A2].
  destruct (Ascii.eqb_spec c "*") as [->|_].
  - discriminate A1.
  - now rewrite (IH A2).
Qed.

Lemma replaceParams_literal (s : string) :
  allChars (fun c => negb (Ascii.eqb c ":")) s = true ->
  replaceParams false s = s.
Proof.
  induction s as [|c s IH]; simpl; [reflexivity|].
  intro A. apply andb_true_iff in A as [A1 A2].
  apply negb_true_iff in A1. rewrite A1. simpl.
  now rewrite (IH A2).
Qed.

Lemma allChars_stripTrailingSlash (ok : ascii -> bool) (s : string) :
  allChars ok s = true -> allChars ok (stripTrailingSlash s) = true.
Proof.
  induction s as [|c s IH]; simpl; [reflexivity|].
  intro A. apply andb_true_iff in A as [A1 A2].
  destruct s as [|d s].
  - destruct (Ascii.eqb c "/"); simpl; [reflexivity | now rewrite A1].
  - change (allChars ok (String c (stripTrailingSlash (String d s))) = true).
    simpl allChars at 1. rewrite A1. exact (IH A2).
Qed.

(** Matching a literal text consumes exactly that text. *)
Lemma matchSeq_chars (lit : string) (k : pos -> bool) (b : bool) (s : string) :
  matchSeq (chars lit) k (b, s) =
  match lit with
  | EmptyString => k (b, s)
  | String _ _ =>
      match afterPrefix lit s with
      | Some s' => k (false, s')
      | None => false
      end
  end.
Proof.
  revert b s; induction lit as [|c lit IH]; intros b s.
  - reflexivity.
  - simpl chars. simpl matchSeq. unfold oneChar, rest; simpl snd.
    destruct s as [|d s]; [reflexivity|].
    simpl afterPrefix. destruct (Ascii.eqb c d); simpl; [|reflexivity].
    rewrite IH. destruct lit; reflexivity.
Qed.

Lemma afterPrefix_Some (lit s s' : string) :
  afterPrefix lit s = Some s' <-> s = (lit ++ s')%string.
Proof.
  revert s; induction lit as [|c lit IH]; intro s; simpl.
  - split; intro H; [now injection H as -> | now subst].
  - destruct s as [|d s]; [split; discriminate|].
    destruct (Ascii.eqb_spec c d) as [->|N].
    + rewrite IH. split; intro H; [now subst | now injection H].
    + split; [discriminate | intro H; injection H as H1 H2; now subst].
Qed.

Lemma slashThenEnd_spec (p : pos) :
  slashThenEnd p = true <-> rest p = "" \/ rest p = "/".
Proof.
  unfold slashThenEnd; simpl. unfold oneChar.
  destruct (rest p) as [|c s]; simpl.
  - split; [now left | reflexivity].
  - rewrite orb_false_r. destruct (Ascii.eqb_spec "/" c) as [<-|N]; simpl.
    + destruct s; split; try discriminate; auto.
      intros [H|H]; discriminate.
    + split; [discriminate|]. intros [H|H]; [discriminate|].
      injection H as H _. now subst.
Qed.

(** A pattern that begins with [^] matches at index 0 or not at all. *)
Lemma search_bol (body : list re) (s : string) :
  search (RSeq (RBol :: body)) false s = false.
Proof.
  induction s as [|c s IH]; simpl; [reflexivity | exact IH].
Qed.

Lemma test_bol (body : list re) (url : string) :
  test (RSeq (RBol :: body)) url = matchSeq body (fun _ => true) (true, url).
Proof.
  unfold test. destruct url as [|c s]; simpl.
  - unfold matchAt. rewrite matchRe_seq. simpl. now rewrite orb_false_r.
  - rewrite search_bol, orb_false_r. unfold matchAt.
    rewrite matchRe_seq. reflexivity.
Qed.

End RegExpFacts.

(* ===================================================================== *)
(** * The shape of a compiled pattern *)
(* ===================================================================== *)

Module PatternShape.

Import RegExpFacts.

#[local] Arguments Ascii.eqb : simpl never.

(** The first term read at the top level is [^]. *)
Definition beginsWithBol (st : pstate) : Prop :=
  exists l, outermost (frames st) (cur st) = l ++ [RBol].

Lemma outermost_cons (fs : list (list re)) (r : re) (c l : list re) :
  outermost fs c = l ++ [RBol] ->
  exists l', outermost fs (r :: c) = l' ++ [RBol].
Proof.
  destruct fs as [|f fs]; simpl; intro H.
  - exists (r :: l). now rewrite H.
  - now exists l.
Qed.

Lemma push_bol (r : re) (st : pstate) :
  beginsWithBol st -> beginsWithBol (push r st).
Proof.
  intros [l H]. unfold beginsWithBol, push; simpl.
  exact (outermost_cons _ r _ _ H).
Qed.

Lemma quantify_bol (q : re -> re) (st st' : pstate) :
  beginsWithBol st -> quantify q st = Some st' -> beginsWithBol st'.
Proof.
  intros [l H]. unfold quantify.
  destruct st as [fs c m]; simpl in *.
  destruct c as [|r c]; [discriminate|].
  destruct (quantifiable r) eqn:Q; [|discriminate].
  intro E; injection E as <-. unfold beginsWithBol; simpl.
  destruct fs as [|f fs]; simpl in *.
  - destruct l as [|x l]; simpl in H.
    + injection H as -> _. discriminate Q.
    + injection H as -> ->. now exists (q x :: l).
  - now exists l.
Qed.

Lemma closeGroup_bol (st st' : pstate) :
  beginsWithBol st -> closeGroup st = Some st' -> beginsWithBol st'.
Proof.
  intros [l H]. unfold closeGroup.
  destruct st as [fs c m]; simpl in *.
  destruct fs as [|outer fs]; [discriminate|].
  intro E; injection E as <-. unfold beginsWithBol; simpl in *.
  exact (outermost_cons _ _ _ _ H).
Qed.

Lemma classChar_bol (n : bool) (acc : list ascii) (c : ascii) (st st' : pstate) :
  beginsWithBol st -> classChar n acc c st = Some st' -> beginsWithBol st'.
Proof.
  intro B. unfold classChar.
  destruct (Ascii.eqb c "]").
  - intro E; injection E as <-. now apply push_bol.
  - destruct (Ascii.eqb c "\" || Ascii.eqb c "-"); [discriminate|].
    intro E; injection E as <-. exact B.
Qed.

Lemma step_bol (c : ascii) (st st' : pstate) :
  beginsWithBol st -> step c st = Some st' -> beginsWithBol st'.
Proof.
  intro B. unfold step. destruct (pmode st) as [| |n acc].
  - destruct (isSpecial c).
    + unfold stepSpecial.
      repeat match goal with
      | |- (if ?b then _ else _) = _ -> _ => destruct b
      end;
      try (intro E; injection E as <-);
      try discriminate;
      eauto using push_bol, quantify_bol, closeGroup_bol.
    + intro E; injection E as <-. now apply push_bol.
  - destruct (Ascii.eqb c "^").
    + intro E; injection E as <-. exact B.
    + now apply classChar_bol.
  - now apply classChar_bol.
Qed.

Lemma parseFrom_bol (s : string) (st st' : pstate) :
  beginsWithBol st -> parseFrom st s = Some st' -> beginsWithBol st'.
Proof.
  revert st; induction s as [|c s IH]; intros st B; simpl.
  - intro E; injection E as <-. exact B.
  - destruct (step c st) as [st1|] eqn:S; [|discriminate].
    apply IH. exact (step_bol _ B S).
Qed.

(** ** Patterns without alternation *)

(** No bar among the terms read so far, at any depth. *)
Definition barFree (st : pstate) : Prop :=
  hasBar (cur st) = false
  /\ forallb (fun f => negb (hasBar f)) (frames st) = true.

Lemma hasBar_app (a b : list re) : hasBar (a ++ b) = hasBar a || hasBar b.
Proof. apply existsb_app. Qed.

Lemma hasBar_rev (ts : list re) : hasBar (rev ts) = hasBar ts.
Proof.
  induction ts as [|t ts IH]; simpl; [reflexivity|].
  rewrite hasBar_app, IH. simpl. rewrite orb_false_r. apply orb_comm.
Qed.

Lemma collect_noBar (ts : list re) : hasBar ts = false -> collect ts = RSeq ts.
Proof. intro H. unfold collect. now rewrite H. Qed.

Lemma isBar_collect (ts : list re) : isBar (collect ts) = false.
Proof. unfold collect. destruct (hasBar ts); reflexivity. Qed.

Lemma hasBar_chars (s : string) : hasBar (chars s) = false.
Proof. induction s as [|c s IH]; simpl; [reflexivity | exact IH]. Qed.

Lemma hasBar_bol_chars (q : string) (tl : list re) :
  hasBar tl = false -> hasBar (RBol :: chars q ++ tl) = false.
Proof.
  intro T. change (hasBar (chars q ++ tl) = false).
  now rewrite hasBar_app, hasBar_chars, T.
Qed.

Lemma push_barFree (r : re) (st : pstate) :
  isBar r = false -> barFree st -> barFree (push r st).
Proof.
  intros R [C F]. unfold barFree, push; simpl. rewrite R, C. now split.
Qed.

Lemma quantify_barFree (q : re -> re) (st st' : pstate) :
  (forall r, isBar (q r) = false) ->
  barFree st -> quantify q st = Some st' -> barFree st'.
Proof.
  intros Q [C F]. unfold quantify.
  destruct st as [fs c m]; simpl in *.
  destruct c as [|r c]; [discriminate|].
  destruct (quantifiable r); [|discriminate].
  intro E; injection E as <-. unfold barFree; simpl.
  simpl in C. apply orb_false_iff in C as [_ C]. rewrite Q, C. now split.
Qed.

Lemma closeGroup_barFree (st st' : pstate) :
  barFree st -> closeGroup st = Some st' -> barFree st'.
Proof.
  intros [C F]. unfold closeGroup.
  destruct st as [fs c m]; simpl in *.
  destruct fs as [|outer fs]; [discriminate|].
  intro E; injection E as <-. unfold barFree; simpl in *.
  apply andb_true_iff in F as [F1 F2]. apply negb_true_iff in F1.
  rewrite isBar_collect, F1. now split.
Qed.

Lemma classChar_barFree (n : bool) (acc : list ascii) (c : ascii)
    (st st' : pstate) :
  barFree st -> classChar n acc c st = Some st' -> barFree st'.
Proof.
  intro B. unfold classChar.
  destruct (Ascii.eqb c "]").
  - intro E; injection E as <-. now apply push_barFree.
  - destruct (Ascii.eqb c "\" || Ascii.eqb c "-"); [discriminate|].
    intro E; injection E as <-. exact B.
Qed.

Lemma step_barFree (c : ascii) (st st' : pstate) :
  Ascii.eqb c "|" = false ->
  barFree st -> step c st = Some st' -> barFree st'.
Proof.
  intros N B. unfold step. destruct (pmode st) as [| |n acc].
  - destruct (isSpecial c).
    + unfold stepSpecial. rewrite N.
      repeat match goal with
      | |- (if ?b then _ else _) = _ -> _ => destruct b
      end;
      try (intro E; injection E as <-);
      try discriminate;
      try (now apply push_barFree).
      * intro E.
        eapply quantify_barFree in E; [exact E | reflexivity | exact B].
      * intro E.
        eapply quantify_barFree in E; [exact E | reflexivity | exact B].
      * intro E.
        eapply quantify_barFree in E; [exact E | reflexivity | exact B].
      * destruct B as [C F]. unfold barFree, openGroup; simpl.
        rewrite C, F. now split.
      * intro E. exact (@closeGroup_barFree st st' B E).
      * exact B.
    + intro E; injection E as <-. now apply push_barFree.
  - destruct (Ascii.eqb c "^").
    + intro E; injection E as <-. exact B.
    + now apply classChar_barFree.
  - now apply classChar_barFree.
Qed.

Lemma parseFrom_barFree (s : string) (st st' : pstate) :
  includes "|" s = false ->
  barFree st -> parseFrom st s = Some st' -> barFree st'.
Proof.
  revert st; induction s as [|c s IH]; intros st N B; simpl.
  - intro E; injection E as <-. exact B.
  - simpl in N. apply orb_false_iff in N as [N1 N2].
    destruct (step c st) as [st1|] eqn:S; [|discriminate].
    apply (IH _ N2). exact (@step_barFree c st st1 N1 B S).
Qed.

Lemma includes_app (c : ascii) (a b : string) :
  includes c (a ++ b) = includes c a || includes c b.
Proof.
  induction a as [|x a IH]; simpl; [reflexivity|].
  now rewrite IH, orb_assoc.
Qed.

Lemma includes_replaceStars (s : string) :
  includes "|" (replaceStars s) = includes "|" s.
Proof.
  induction s as [|c s IH]; simpl; [reflexivity|].
  destruct (Ascii.eqb_spec c "*") as [->|_].
  - change (includes "|" (replaceStars s) = includes "|" s). exact IH.
  - simpl. now rewrite IH.
Qed.

Lemma includes_replaceParams (inName : bool) (s : string) :
  includes "|" s = false -> includes "|" (replaceParams inName s) = false.
Proof.
  revert inName; induction s as [|c s IH]; intros inName; simpl;
    [reflexivity|].
  intro N. apply orb_false_iff in N as [N1 N2].
  destruct (inName && isWordChar c); [now apply IH|].
  destruct (Ascii.eqb c ":" && startsWithWord s).
  - exact (IH true N2).
  - simpl. now rewrite N1, (IH false N2).
Qed.

Lemma includes_stripTrailingSlash (c : ascii) (s : string) :
  includes c s = false -> includes c (stripTrailingSlash s) = false.
Proof.
  induction s as [|d s IH]; simpl; [reflexivity|].
  intro N. apply orb_false_iff in N as [N1 N2].
  destruct s as [|e s].
  - destruct (Ascii.eqb d "/"); simpl; [reflexivity | now rewrite N1].
  - change (Ascii.eqb d c || includes c (stripTrailingSlash (String e s))
            = false).
    now rewrite N1, (IH N2).
Qed.

(** Reading the closing ["/?$"] of a pattern of Variant B. *)
Lemma parse_slash_opt_eol (st st' : pstate) (r : re) :
  parseFrom st "/?$" = Some st' -> finish st' = Some r ->
  frames st = []
  /\ r = collect (rev (cur st) ++ [ROpt (RChar "/"); REol]).
Proof.
  destruct st as [fs c m]. destruct m as [| |n acc].
  - cbn. intro E; injection E as <-. unfold finish; simpl.
    destruct fs; [|discriminate].
    intro E; injection E as <-. split; [reflexivity|].
    now rewrite <- app_assoc.
  - cbn. intro E; injection E as <-. discriminate.
  - cbn. intro E; injection E as <-. discriminate.
Qed.

(** Reading the closing ["$"] of a pattern of Variant A. *)
Lemma parse_eol (st st' : pstate) (r : re) :
  parseFrom st "$" = Some st' -> finish st' = Some r ->
  frames st = [] /\ r = collect (rev (cur st) ++ [REol]).
Proof.
  destruct st as [fs c m]. destruct m as [| |n acc].
  - cbn. intro E; injection E as <-. unfold finish; simpl.
    destruct fs; [|discriminate].
    intro E; injection E as <-. now split.
  - cbn. intro E; injection E as <-. discriminate.
  - cbn. intro E; injection E as <-. discriminate.
Qed.

(** Every pattern of Variant B that compiles, for a path without ['|'],
    is [^], a body, an optional slash and [$]. *)
Lemma variantB_shape (p : string) (r : re) :
  includes "|" p = false ->
  RegExp (VariantB.Matcher.regexStr p) = Some r ->
  exists body, r = RSeq (RBol :: body ++ [ROpt (RChar "/"); REol]).
Proof.
  intro N. unfold RegExp, VariantB.Matcher.regexStr.
  set (b := stripTrailingSlash (replaceParams false (replaceStars p))).
  assert (Nb : includes "|" b = false).
  { apply includes_stripTrailingSlash, includes_replaceParams.
    now rewrite includes_replaceStars. }
  change ("^" ++ b ++ "/?$")%string with (String "^" (b ++ "/?$")).
  simpl parseFrom. change (step "^" start) with (Some (push RBol start)).
  cbv iota. rewrite parseFrom_app.
  destruct (parseFrom (push RBol start) b) as [st2|] eqn:P2; [|discriminate].
  destruct (parseFrom st2 "/?$") as [st3|] eqn:P3; [|discriminate].
  intro F. destruct (parse_slash_opt_eol _ P3 F) as [Hf ->].
  assert (B : beginsWithBol st2).
  { apply (parseFrom_bol b (st := push RBol start)); [|exact P2].
    exists []. reflexivity. }
  assert (BF : barFree st2).
  { apply (parseFrom_barFree b (st := push RBol start) Nb); [|exact P2].
    split; reflexivity. }
  destruct BF as [BF _].
  rewrite collect_noBar
    by (rewrite hasBar_app, hasBar_rev, BF; reflexivity).
  destruct B as [l Hl]. rewrite Hf in Hl. simpl in Hl. rewrite Hl.
  exists (rev l). rewrite rev_app_distr. reflexivity.
Qed.

(** Every pattern of Variant A that compiles, for a path without ['|'],
    is a body and [$]. *)
Lemma variantA_shape (p : string) (r : re) :
  includes "|" p = false ->
  RegExp (VariantA.regexStr p) = Some r ->
  exists body, r = RSeq (body ++ [REol]).
Proof.
  intro N. unfold RegExp, VariantA.regexStr. rewrite parseFrom_app.
  destruct (parseFrom start _) as [st2|] eqn:P2; [|discriminate].
  destruct (parseFrom st2 "$") as [st3|] eqn:P3; [|discriminate].
  intro F. destruct (parse_eol _ P3 F) as [_ ->].
  assert (BF : barFree st2).
  { apply (parseFrom_barFree _ (st := start)) in P2; [exact P2| |].
    - apply includes_replaceParams. now rewrite includes_replaceStars.
    - split; reflexivity. }
  destruct BF as [BF _].
  rewrite collect_noBar
    by (rewrite hasBar_app, hasBar_rev, BF; reflexivity).
  now exists (rev (cur st2)).
Qed.

End PatternShape.

(* ===================================================================== *)
(** * Literal paths *)
(* ===================================================================== *)

Module LiteralPaths.

Import RegExpFacts.

#[local] Arguments Ascii.eqb : simpl never.

Lemma literal_not_special (p : string) :
  literalPath p = true -> allChars (fun c => negb (isSpecial c)) p = true.
Proof.
  apply allChars_weaken. intros c H.
  unfold literalChar in H. now apply andb_true_iff in H as [H _].
Qed.

Lemma literal_not_colon (p : string) :
  literalPath p = true -> allChars (fun c => negb (Ascii.eqb c ":")) p = true.
Proof.
  apply allChars_weaken. intros c H.
  unfold literalChar in H. now apply andb_true_iff in H as [_ H].
Qed.

(** The two [replace] calls leave a literal path as it is. *)
Lemma replace_literal (p : string) :
  literalPath p = true -> replaceParams false (replaceStars p) = p.
Proof.
  intro L. rewrite (replaceStars_literal _ (literal_not_special _ L)).
  exact (replaceParams_literal _ (literal_not_colon _ L)).
Qed.

Lemma variantA_literal (p : string) :
  literalPath p = true ->
  RegExp (VariantA.regexStr p) = Some (RSeq (chars p ++ [REol])).
Proof.
  intro L. unfold RegExp, VariantA.regexStr.
  rewrite (replace_literal _ L), parseFrom_app.
  rewrite (parseFrom_literal p start (literal_not_special _ L) eq_refl).
  cbn. unfold finish; simpl.
  rewrite charsRev_spec, app_nil_r, rev_involutive.
  rewrite PatternShape.collect_noBar; [reflexivity|].
  rewrite PatternShape.hasBar_app, PatternShape.hasBar_chars. reflexivity.
Qed.

Lemma variantB_literal (p : string) :
  literalPath p = true ->
  RegExp (VariantB.Matcher.regexStr p) =
  Some (RSeq (RBol :: chars (stripTrailingSlash p)
              ++ [ROpt (RChar "/"); REol])).
Proof.
  intro L. unfold RegExp, VariantB.Matcher.regexStr.
  rewrite (replace_literal _ L).
  set (q := stripTrailingSlash p).
  change ("^" ++ q ++ "/?$")%string with (String "^" (q ++ "/?$")).
  simpl parseFrom. change (step "^" start) with (Some (push RBol start)).
  cbv iota. rewrite parseFrom_app.
  assert (Lq : allChars (fun c => negb (isSpecial c)) q = true).
  { apply allChars_stripTrailingSlash. now apply literal_not_special. }
  rewrite (parseFrom_literal q (push RBol start) Lq eq_refl).
  cbn. unfold finish; simpl.
  rewrite charsRev_spec. simpl.
  rewrite rev_app_distr, rev_involutive. simpl.
  rewrite <- !app_assoc. simpl.
  rewrite PatternShape.collect_noBar; [reflexivity|].
  now apply PatternShape.hasBar_bol_chars.
Qed.

(** In Variant A a literal path matches at a position exactly when the
    rest of the input is that path. *)
Lemma matchAt_literal_A (p : string) (b : bool) (s : string) :
  matchAt (RSeq (chars p ++ [REol])) (b, s) = true <-> s = p.
Proof.
  unfold matchAt. rewrite matchRe_seq, matchSeq_app.
  change (matchSeq [REol] (fun _ => true)) with atEnd.
  rewrite matchSeq_chars. destruct p as [|c p].
  - unfold atEnd; simpl. destruct s; split; congruence.
  - destruct (afterPrefix (String c p) s) as [s'|] eqn:A.
    + apply afterPrefix_Some in A. subst s. unfold atEnd; simpl.
      destruct s' as [|d s'].
      * rewrite string_app_nil_r. split; reflexivity.
      * split; [discriminate|]. intro H. exfalso.
        injection H as H.
        assert (E : String.length (p ++ String d s') = String.length p)
          by now rewrite H.
        rewrite string_length_app in E. simpl in E. lia.
    + split; [discriminate|]. intro H. subst s.
      assert (A' : afterPrefix (String c p) (String c p) = Some "").
      { apply afterPrefix_Some. now rewrite string_app_nil_r. }
      congruence.
Qed.

Lemma search_literal_A (p : string) (b : bool) (s : string) :
  search (RSeq (chars p ++ [REol])) b s = true <->
  exists pre, s = (pre ++ p)%string.
Proof.
  revert b; induction s as [|c s IH]; intro b; simpl.
  - rewrite orb_false_r, matchAt_literal_A. split.
    + intro H. exists "". now subst.
    + intros [pre H]. destruct pre; simpl in H; [now subst | discriminate].
  - rewrite orb_true_iff, matchAt_literal_A, IH. split.
    + intros [H|[pre H]].
      * exists "". now subst.
      * exists (String c pre). simpl. now subst.
    + intros [pre H]. destruct pre as [|d pre]; simpl in H.
      * left. now subst.
      * right. injection H as _ H. now exists pre.
Qed.

Lemma test_literal_B (q url : string) :
  test (RSeq (RBol :: chars q ++ [ROpt (RChar "/"); REol])) url = true <->
  url = q \/ url = (q ++ "/")%string.
Proof.
  rewrite test_bol, matchSeq_app.
  change (matchSeq [ROpt (RChar "/"); REol] (fun _ => true)) with slashThenEnd.
  rewrite matchSeq_chars. destruct q as [|c q].
  - rewrite slashThenEnd_spec. reflexivity.
  - destruct (afterPrefix (String c q) url) as [s'|] eqn:A.
    + apply afterPrefix_Some in A. subst url.
      rewrite slashThenEnd_spec. unfold rest; simpl snd. split.
      * intros [->| ->]; [left | right]; [now rewrite string_app_nil_r | reflexivity].
      * intros [H|H].
        -- left. apply (string_app_inv_head (String c q) s' "").
           now rewrite string_app_nil_r.
        -- right. exact (string_app_inv_head _ _ _ H).
    + split; [discriminate|]. intros [H|H]; subst url.
      * assert (A' : afterPrefix (String c q) (String c q) = Some "").
        { apply afterPrefix_Some. now rewrite string_app_nil_r. }
        congruence.
      * assert (A' : afterPrefix (String c q) (String c q ++ "/") = Some "/").
        { now apply afterPrefix_Some. }
        congruence.
Qed.

End LiteralPaths.

(* ===================================================================== *)
(** * The refresh loop and the table it builds *)
(* ===================================================================== *)

Module RouterFacts.

Import VariantB VariantB.Matcher VariantB.Router.

#[local] Arguments String.eqb : simpl never.

(** The test of the inner loop of [getRoutes]. *)
Definition selects (m : string) (r : InternalRoute) : bool :=
  String.eqb (method r) m || String.eqb (method r) "ALL".

(** The declarations one pass of the outer loop hands to [add]. *)
Definition declarationsFor (m : string) (rs : list InternalRoute)
  : list InternalRoute :=
  map (fun r => withMethod r m) (filter (selects m) rs).

(** All declarations of one refresh, in the order they are added. *)
Definition expansion (rs : list InternalRoute) : list InternalRoute :=
  flat_map (fun m => declarationsFor m rs) ROUTABLE_HTTP_METHODS.

(** The entries of a list of declarations, when every pattern compiles. *)
Fixpoint compileAll (ds : list InternalRoute) : option RouteMatcher :=
  match ds with
  | [] => Some []
  | d :: ds' =>
      match compile d, compileAll ds' with
      | Some e, Some es => Some (e :: es)
      | _, _ => None
      end
  end.

Lemma forEach_app {S A} (xs ys : list A) (f : A -> M S unit) (s : S) :
  forEach (xs ++ ys) f s =
  match forEach xs f s with
  | (Return _, s') => forEach ys f s'
  | (Throw e, s') => (Throw e, s')
  end.
Proof.
  revert s; induction xs as [|x xs IH]; intro s; simpl.
  - reflexivity.
  - unfold bind. destruct (f x s) as [[u|e] s1]; [apply IH | reflexivity].
Qed.

Lemma add_run (d : InternalRoute) (rm : RouteMatcher) :
  add d rm =
  match compile d with
  | Some e => (Return tt, rm ++ [e])
  | None => (Throw (compileError (regexStr (path d))), rm)
  end.
Proof. reflexivity. Qed.

Lemma addAll_ok (ds : list InternalRoute) (es rm : RouteMatcher) :
  compileAll ds = Some es -> forEach ds add rm = (Return tt, rm ++ es).
Proof.
  revert es rm; induction ds as [|d ds IH]; intros es rm; simpl.
  - intro E; injection E as <-. now rewrite app_nil_r.
  - unfold bind. rewrite add_run.
    destruct (compile d) as [e|]; [|discriminate].
    destruct (compileAll ds) as [es'|]; [|discriminate].
    intro E; injection E as <-.
    rewrite (IH es' (rm ++ [e]) eq_refl), <- app_assoc. reflexivity.
Qed.

Lemma addAll_Return (ds : list InternalRoute) (rm rm' : RouteMatcher) (u : unit) :
  forEach ds add rm = (Return u, rm') ->
  exists es, compileAll ds = Some es /\ rm' = rm ++ es.
Proof.
  revert rm; induction ds as [|d ds IH]; intro rm; simpl.
  - intro E; injection E as _ <-. exists []. now rewrite app_nil_r.
  - unfold bind. rewrite add_run.
    destruct (compile d) as [e|]; [|discriminate].
    intro E. destruct (IH _ E) as (es & C & ->).
    exists (e :: es). rewrite C, <- app_assoc. now split.
Qed.

(** The inner loop adds the declarations of its method. *)
Lemma inner_loop (m : string) (rs : list InternalRoute) (app : Elysia)
    (rm : RouteMatcher) :
  forEach rs (fun r =>
      if String.eqb (method r) m || String.eqb (method r) "ALL"
      then onMatcher (add (withMethod r m))
      else ret tt) (mkRouter app rm)
  = onMatcher (forEach (declarationsFor m rs) add) (mkRouter app rm).
Proof.
  revert rm; induction rs as [|r rs IH]; intro rm.
  - reflexivity.
  - unfold declarationsFor. simpl filter. unfold selects at 1.
    simpl forEach at 1.
    destruct (String.eqb (method r) m || String.eqb (method r) "ALL").
    + simpl map. simpl forEach. unfold bind, onMatcher at 1 3. simpl.
      destruct (add (withMethod r m) rm) as [[u|e] rm1].
      * rewrite IH. reflexivity.
      * reflexivity.
    + unfold bind, ret. rewrite IH. reflexivity.
Qed.

(** The two nested loops add the declarations of [expansion]. *)
Lemma outer_loop (ms : list string) (app : Elysia) (rm : RouteMatcher) :
  forEach ms (fun m this =>
      forEach (routes (_app this)) (fun r =>
        if String.eqb (method r) m || String.eqb (method r) "ALL"
        then onMatcher (add (withMethod r m))
        else ret tt) this) (mkRouter app rm)
  = onMatcher
      (forEach (flat_map (fun m => declarationsFor m (routes app)) ms) add)
      (mkRouter app rm).
Proof.
  revert rm; induction ms as [|m ms IH]; intro rm.
  - reflexivity.
  - simpl forEach at 1. unfold bind at 1. simpl _app.
    rewrite inner_loop. simpl flat_map.
    unfold onMatcher. simpl. rewrite forEach_app.
    destruct (forEach (declarationsFor m (routes app)) add rm) as [[u|e] rm1].
    + rewrite IH. reflexivity.
    + reflexivity.
Qed.

Lemma getRoutes_eq (this : HttpRouterWithElysia) :
  getRoutes this =
  match forEach (expansion (routes (_app this))) add (_routeMatcher this) with
  | (Return _, rm) => (Return (toConvexRoutes rm), mkRouter (_app this) rm)
  | (Throw e, rm) => (Throw e, mkRouter (_app this) rm)
  end.
Proof.
  destruct this as [app rm]. unfold getRoutes, bind.
  rewrite outer_loop. unfold onMatcher, expansion. simpl.
  destruct (forEach _ add rm) as [[u|e] rm1]; reflexivity.
Qed.

(** A refresh never touches the app. *)
Lemma getRoutes_app (this this' : HttpRouterWithElysia)
    (o : outcome (list ConvexRoute)) :
  getRoutes this = (o, this') -> _app this' = _app this.
Proof.
  rewrite getRoutes_eq.
  destruct (forEach _ add _) as [[u|e] rm1]; intro E; injection E as _ <-;
    reflexivity.
Qed.

Lemma getRoutes_ok (this : HttpRouterWithElysia) (es : RouteMatcher) :
  compileAll (expansion (routes (_app this))) = Some es ->
  getRoutes this =
  (Return (toConvexRoutes (_routeMatcher this ++ es)),
   mkRouter (_app this) (_routeMatcher this ++ es)).
Proof.
  intro C. rewrite getRoutes_eq, (addAll_ok _ _ C). reflexivity.
Qed.

Lemma getRoutes_Return (this this' : HttpRouterWithElysia)
    (L : list ConvexRoute) :
  getRoutes this = (Return L, this') ->
  exists es,
    compileAll (expansion (routes (_app this))) = Some es
    /\ this' = mkRouter (_app this) (_routeMatcher this ++ es)
    /\ L = toConvexRoutes (_routeMatcher this ++ es).
Proof.
  rewrite getRoutes_eq.
  destruct (forEach _ add _) as [[u|e] rm1] eqn:F; [|discriminate].
  intro E; injection E as <- <-.
  destruct (addAll_Return _ _ F) as (es & C & ->).
  now exists es.
Qed.

(** ** The loops of [find] over a table that repeats itself *)

Lemma firstPath_app (cond : CompiledRoute -> bool) (a b : RouteMatcher) :
  firstPath cond (a ++ b) =
  match firstPath cond a with
  | Some p => Some p
  | None => firstPath cond b
  end.
Proof.
  induction a as [|e a IH]; simpl; [reflexivity|].
  destruct (cond e); [reflexivity | exact IH].
Qed.

Lemma firstPath_repeat (cond : CompiledRoute -> bool) (a b : RouteMatcher) :
  firstPath cond (a ++ b ++ b) = firstPath cond (a ++ b).
Proof.
  rewrite !firstPath_app.
  destruct (firstPath cond a); [reflexivity|].
  destruct (firstPath cond b); reflexivity.
Qed.

Lemma find_repeat (m url : string) (a b : RouteMatcher) :
  find m url (a ++ b ++ b) = find m url (a ++ b).
Proof.
  unfold find. now rewrite !firstPath_repeat.
Qed.

(** What a loop of [find] returns is the path of the first entry that
    passes its test. *)
Lemma firstPath_Some (cond : CompiledRoute -> bool) (rm : RouteMatcher)
    (p : string) :
  firstPath cond rm = Some p <->
  exists a e b,
    rm = a ++ e :: b /\ cond e = true /\ p = path (Matcher.route e)
    /\ forallb (fun x => negb (cond x)) a = true.
Proof.
  induction rm as [|x rm IH]; simpl.
  - split; [discriminate|].
    intros (a & e & b & H & _). destruct a; discriminate.
  - destruct (cond x) eqn:C.
    + split.
      * intro E; injection E as <-. now exists [], x, rm.
      * intros (a & e & b & H & Ce & -> & Na).
        destruct a as [|y a]; simpl in *.
        -- now injection H as -> _.
        -- injection H as -> _. rewrite C in Na. discriminate.
    + rewrite IH. split.
      * intros (a & e & b & -> & Ce & -> & Na).
        exists (x :: a), e, b. simpl. rewrite C. now repeat split.
      * intros (a & e & b & H & Ce & -> & Na).
        destruct a as [|y a]; simpl in *.
        -- injection H as -> _. congruence.
        -- injection H as -> ->. apply andb_true_iff in Na as [_ Na].
           now exists a, e, b.
Qed.

Lemma firstPath_None (cond : CompiledRoute -> bool) (rm : RouteMatcher) :
  firstPath cond rm = None <-> forall e, In e rm -> cond e = false.
Proof.
  induction rm as [|x rm IH]; simpl.
  - split; [intros _ e [] | reflexivity].
  - destruct (cond x) eqn:C.
    + split; [discriminate|]. intro H. rewrite (H x) in C by now left.
      discriminate.
    + rewrite IH. split.
      * intros H e [<-|I]; [exact C | now apply H].
      * intros H e I. apply H. now right.
Qed.

End RouterFacts.

(* ===================================================================== *)
(** * Refreshing the table: [getRoutes] *)
(* ===================================================================== *)

Module Refresh.

Import VariantB VariantB.Matcher VariantB.Router RouterFacts.

#[local] Arguments String.eqb : simpl never.

(** An app with a single route. *)
Definition oneRouteApp : Elysia := mkApp [mkRoute "GET" "/" (HFunction 0)].

(** An app with one route under the "ALL" sentinel. *)
Definition allApp : Elysia := mkApp [mkRoute "ALL" "/x/" (HValue "v")].

(** Idempotence of the refresh as the specification words it: the second
    of two calls in a row returns the tuples of the first and leaves the
    table as the first left it. *)
Definition refreshIdempotent : Prop :=
  forall (this this1 this2 : HttpRouterWithElysia) (L1 L2 : list ConvexRoute),
    getRoutes this = (Return L1, this1) ->
    getRoutes this1 = (Return L2, this2) ->
    L2 = L1 /\ _routeMatcher this2 = _routeMatcher this1.

Lemma toConvexRoutes_app (a b : RouteMatcher) :
  toConvexRoutes (a ++ b) = toConvexRoutes a ++ toConvexRoutes b.
Proof. unfold toConvexRoutes. apply map_app. Qed.

Lemma toConvexRoutes_length (a : RouteMatcher) :
  length (toConvexRoutes a) = length a.
Proof. unfold toConvexRoutes. apply length_map. Qed.

Lemma in_expansion (rs : list InternalRoute) (d : InternalRoute) :
  In d (expansion rs) <->
  exists m r,
    In m ROUTABLE_HTTP_METHODS /\ In r rs /\ selects m r = true
    /\ d = withMethod r m.
Proof.
  unfold expansion, declarationsFor. rewrite in_flat_map. split.
  - intros (m & Hm & H). apply in_map_iff in H as (r & <- & H).
    apply filter_In in H as [H1 H2]. now exists m, r.
  - intros (m & r & Hm & Hr & S & ->). exists m. split; [exact Hm|].
    apply in_map_iff. exists r. split; [reflexivity|].
    apply filter_In. now split.
Qed.

Lemma compile_route (d : InternalRoute) (e : CompiledRoute) :
  compile d = Some e ->
  Matcher.route e = d /\ isWildcard e = includes "*" (path d).
Proof.
  unfold compile. destruct (RegExp _); [|discriminate].
  intro E; injection E as <-. now split.
Qed.

Lemma compileAll_In (ds : list InternalRoute) (es : RouteMatcher) :
  compileAll ds = Some es ->
  (forall d, In d ds -> exists e, compile d = Some e /\ In e es)
  /\ (forall e, In e es -> exists d, In d ds /\ compile d = Some e).
Proof.
  revert es; induction ds as [|x ds IH]; intros es; simpl.
  - intro E; injection E as <-. split; intros ? [].
  - destruct (compile x) as [ex|] eqn:Cx; [|discriminate].
    destruct (compileAll ds) as [es'|]; [|discriminate].
    intro E; injection E as <-. destruct (IH es' eq_refl) as [I1 I2]. split.
    + intros d [<-|I].
      * exists ex. split; [exact Cx | now left].
      * destruct (I1 d I) as (e & C & Ie). exists e. split; [exact C | now right].
    + intros e [<-|I].
      * exists x. split; [now left | exact Cx].
      * destruct (I2 e I) as (d & Id & C). exists d. split; [now right | exact C].
Qed.

(** An entry that passes both tests of a loop is found by [find]. *)
Lemma find_hit (m url : string) (rm : RouteMatcher) (e : CompiledRoute) :
  In e rm -> hits m url e = true -> find m url rm <> None.
Proof.
  intros I H. unfold find.
  destruct (firstPath (fun x => negb (isWildcard x) && hits m url x) rm) eqn:F1;
    [discriminate|].
  destruct (firstPath (fun x => isWildcard x && hits m url x) rm) eqn:F2;
    [discriminate|].
  exfalso.
  pose proof (proj1 (firstPath_None _ rm) F1 e I) as N1.
  pose proof (proj1 (firstPath_None _ rm) F2 e I) as N2.
  simpl in N1, N2. rewrite H in N1, N2.
  destruct (isWildcard e); discriminate.
Qed.

(** What [find] returns is the path of an entry of the requested method
    whose pattern matches. *)
Lemma find_sound (m url p : string) (rm : RouteMatcher) :
  find m url rm = Some p ->
  exists e, In e rm /\ hits m url e = true /\ p = path (Matcher.route e).
Proof.
  unfold find.
  destruct (firstPath (fun x => negb (isWildcard x) && hits m url x) rm) eqn:F1.
  - intro E; injection E as <-.
    apply firstPath_Some in F1 as (a & e & b & -> & C & -> & _).
    exists e. apply andb_true_iff in C as [_ C].
    split; [apply in_elt | now split].
  - intro F2.
    apply firstPath_Some in F2 as (a & e & b & -> & C & -> & _).
    exists e. apply andb_true_iff in C as [_ C].
    split; [apply in_elt | now split].
Qed.

(** C1, as stated, fails: on a router over an app with one route the
    second call returns two tuples where the first returned one. *)
Lemma getRoutes_not_idempotent : ~ refreshIdempotent.
Proof.
  intro H.
  destruct (H (new oneRouteApp)
              (snd (getRoutes (new oneRouteApp)))
              (snd (getRoutes (snd (getRoutes (new oneRouteApp)))))
              [("/", "GET", Fn 0)]
              [("/", "GET", Fn 0); ("/", "GET", Fn 0)]) as [E _].
  - vm_compute. reflexivity.
  - vm_compute. reflexivity.
  - discriminate E.
Qed.

(** C1, amended: two calls of [getRoutes] in a row, with no route added
    to the app in between, resolve every request alike, and the app is as
    it was; but the table is not rebuilt: the second call adds the app's
    declarations once more, so its tuple list is the first list followed
    by the tuples the first call added. *)
Theorem getRoutes_twice (this this1 : HttpRouterWithElysia)
    (L1 : list ConvexRoute) :
  getRoutes this = (Return L1, this1) ->
  exists (L2 : list ConvexRoute) (this2 : HttpRouterWithElysia),
    getRoutes this1 = (Return L2, this2)
    /\ _app this2 = _app this
    /\ L2 = L1 ++ skipn (length (_routeMatcher this)) L1
    /\ (forall m url,
          find m url (_routeMatcher this2) = find m url (_routeMatcher this1)).
Proof.
  intro G. destruct (getRoutes_Return _ G) as (es & C & -> & ->).
  destruct this as [app rm]; simpl in *.
  eexists _, _. split; [|split; [|split]].
  - apply (getRoutes_ok (mkRouter app (rm ++ es))). exact C.
  - reflexivity.
  - simpl. rewrite !toConvexRoutes_app. f_equal.
    rewrite skipn_app, toConvexRoutes_length, Nat.sub_diag.
    rewrite skipn_all2 by (rewrite toConvexRoutes_length; lia).
    reflexivity.
  - intros m url. simpl. rewrite <- app_assoc. apply find_repeat.
Qed.

(** [getRoutes_twice] on a fresh router over [oneRouteApp]. *)
Lemma getRoutes_twice_witness :
  exists (L2 : list ConvexRoute) (this2 : HttpRouterWithElysia),
    getRoutes (snd (getRoutes (new oneRouteApp))) = (Return L2, this2)
    /\ _app this2 = _app (new oneRouteApp)
    /\ L2 = [("/", "GET", Fn 0)]
            ++ skipn (length (_routeMatcher (new oneRouteApp)))
                     [("/", "GET", Fn 0)]
    /\ (forall m url,
          find m url (_routeMatcher this2) =
          find m url (_routeMatcher (snd (getRoutes (new oneRouteApp))))).
Proof.
  apply (@getRoutes_twice (new oneRouteApp)). vm_compute. reflexivity.
Defined.

(** C7: after a refresh that returns, a route declared under "ALL" has,
    for each routable method [m], an entry that carries [m] itself (and a
    tuple for it in the list returned), so that [find] resolves every url
    the route's pattern matches under every routable method; [find] itself
    compares methods for equality only, so a table of "ALL" entries
    resolves nothing for a routable method. *)
Theorem all_sentinel_expanded (this this' : HttpRouterWithElysia)
    (L : list ConvexRoute) (r : InternalRoute) (m : string) :
  getRoutes this = (Return L, this') ->
  In r (routes (_app this)) ->
  method r = "ALL" ->
  In m ROUTABLE_HTTP_METHODS ->
  (exists e,
      compile (withMethod r m) = Some e
      /\ In e (_routeMatcher this')
      /\ method (Matcher.route e) = m
      /\ path (Matcher.route e) = path r
      /\ In (path r, m, callable (handler r)) L
      /\ forall url, test (regex e) url = true ->
           exists q,
             find m url (_routeMatcher this') = Some q
             /\ lookup url m this = (Return (TheHandler, m, q), this'))
  /\ (forall e, In e (_routeMatcher this') ->
        In e (_routeMatcher this)
        \/ In (method (Matcher.route e)) ROUTABLE_HTTP_METHODS)
  /\ (forall (rm : RouteMatcher) url,
        (forall e, In e rm -> method (Matcher.route e) = "ALL") ->
        find m url rm = None).
Proof.
  intros G Ir Mr Im.
  destruct (getRoutes_Return _ G) as (es & C & -> & ->).
  destruct (compileAll_In _ C) as [I1 I2].
  split; [|split].
  - assert (Id : In (withMethod r m) (expansion (routes (_app this)))).
    { apply in_expansion. exists m, r. repeat split; try assumption.
      unfold selects. rewrite Mr. apply orb_true_r. }
    destruct (I1 _ Id) as (e & Ce & Ie). exists e.
    destruct (compile_route _ Ce) as [Re _].
    assert (Ie' : In e (_routeMatcher this ++ es))
      by (apply in_or_app; now right).
    repeat split.
    + exact Ce.
    + exact Ie'.
    + now rewrite Re.
    + now rewrite Re.
    + unfold toConvexRoutes. apply in_map_iff. exists e.
      rewrite Re. split; [reflexivity | exact Ie'].
    + intros url T.
      assert (H : find m url (_routeMatcher this ++ es) <> None).
      { apply (find_hit m url _ e Ie').
        unfold hits. rewrite Re, T. simpl. now rewrite String.eqb_refl. }
      destruct (find m url (_routeMatcher this ++ es)) as [q|] eqn:F;
        [|contradiction].
      exists q. split; [exact F|].
      unfold lookup, bind. rewrite G. cbn [_routeMatcher]. rewrite F.
      replace (normalizeMethod m) with m; [reflexivity|].
      simpl in Im.
      repeat destruct Im as [<-|Im]; try reflexivity. contradiction.
  - simpl. intros e Ie. apply in_app_or in Ie as [Ie|Ie]; [now left | right].
    destruct (I2 e Ie) as (d & Id & Cd).
    destruct (compile_route _ Cd) as [-> _].
    apply in_expansion in Id as (m' & r' & Hm' & _ & _ & ->). exact Hm'.
  - intros rm url A.
    destruct (find m url rm) as [p|] eqn:F; [exfalso | reflexivity].
    apply find_sound in F as (e & Ie & H & _).
    unfold hits in H. apply andb_true_iff in H as [H _].
    apply String.eqb_eq in H. rewrite (A e Ie) in H. subst m.
    simpl in Im. repeat destruct Im as [Im|Im]; try discriminate Im.
    contradiction.
Qed.

(** [all_sentinel_expanded] on a fresh router over [allApp], for PATCH. *)
Lemma all_sentinel_expanded_witness :
  (exists e,
      compile (withMethod (mkRoute "ALL" "/x/" (HValue "v")) "PATCH") = Some e
      /\ In e (_routeMatcher (snd (getRoutes (new allApp))))
      /\ method (Matcher.route e) = "PATCH"
      /\ path (Matcher.route e) = "/x/"
      /\ In ("/x/", "PATCH", Noop)
            [("/x/", "GET", Noop); ("/x/", "POST", Noop); ("/x/", "PUT", Noop);
             ("/x/", "DELETE", Noop); ("/x/", "OPTIONS", Noop);
             ("/x/", "PATCH", Noop)]
      /\ forall url, test (regex e) url = true ->
           exists q,
             find "PATCH" url (_routeMatcher (snd (getRoutes (new allApp))))
               = Some q
             /\ lookup url "PATCH" (new allApp)
                = (Return (TheHandler, "PATCH", q), snd (getRoutes (new allApp))))
  /\ (forall e, In e (_routeMatcher (snd (getRoutes (new allApp)))) ->
        In e (_routeMatcher (new allApp))
        \/ In (method (Matcher.route e)) ROUTABLE_HTTP_METHODS)
  /\ (forall (rm : RouteMatcher) url,
        (forall e, In e rm -> method (Matcher.route e) = "ALL") ->
        find "PATCH" url rm = None).
Proof.
  apply (@all_sentinel_expanded (new allApp) (snd (getRoutes (new allApp)))
           [("/x/", "GET", Noop); ("/x/", "POST", Noop); ("/x/", "PUT", Noop);
            ("/x/", "DELETE", Noop); ("/x/", "OPTIONS", Noop);
            ("/x/", "PATCH", Noop)]
           (mkRoute "ALL" "/x/" (HValue "v")) "PATCH").
  - vm_compute. reflexivity.
  - simpl. left. reflexivity.
  - reflexivity.
  - simpl. do 5 right. left. reflexivity.
Defined.

End Refresh.

(* ===================================================================== *)
(** * Precedence in [find] *)
(* ===================================================================== *)

Module Precedence.

Import VariantB VariantB.Matcher RouterFacts Refresh.

#[local] Arguments String.eqb : simpl never.

Definition usersId : InternalRoute := mkRoute "GET" "/users/:id" (HFunction 1).
Definition usersStar : InternalRoute := mkRoute "GET" "/users/*" (HFunction 2).
Definition users42 : InternalRoute := mkRoute "GET" "/users/42" (HFunction 3).

(** The table after [add] of each route of a list, from an empty table. *)
Definition tableOf (rs : list InternalRoute) : RouteMatcher :=
  snd (forEach rs add []).

(** The shipped build returns a declared path equal to the url, whatever
    else is registered. *)
Lemma dist_find_literal (rm : RouteMatcher) (m url : string) (e : CompiledRoute) :
  In e rm -> path (Matcher.route e) = url -> method (Matcher.route e) = m ->
  Dist.find m url rm = Some url.
Proof.
  intros I P Me. unfold Dist.find.
  assert (H : exists x, Dist.perfectMatch m url rm = Some x
                        /\ path (Matcher.route x) = url).
  { induction rm as [|x rm IH]; [destruct I|]. simpl.
    destruct (String.eqb (path (Matcher.route x)) url
              && String.eqb (method (Matcher.route x)) m) eqn:C.
    - exists x. apply andb_true_iff in C as [C _].
      apply String.eqb_eq in C. now split.
    - destruct I as [->|I]; [|now apply IH].
      rewrite P, Me, !String.eqb_refl in C. discriminate. }
  destruct H as (x & -> & ->). reflexivity.
Qed.

(** Without a declared path equal to the url, the shipped build resolves
    as the two passes do. *)
Lemma dist_find_falls_back (rm : RouteMatcher) (m url : string) :
  (forall e, In e rm -> method (Matcher.route e) = m ->
             path (Matcher.route e) <> url) ->
  Dist.find m url rm = find m url rm.
Proof.
  intro A. unfold Dist.find.
  replace (Dist.perfectMatch m url rm) with (@None CompiledRoute);
    [reflexivity|].
  symmetry. induction rm as [|x rm IH]; [reflexivity|]. simpl.
  destruct (String.eqb_spec (path (Matcher.route x)) url) as [E|N]; simpl.
  - destruct (String.eqb_spec (method (Matcher.route x)) m) as [E'|N'].
    + exfalso. apply (A x); [now left | exact E' | exact E].
    + apply IH. intros e I. apply A. now right.
  - apply IH. intros e I. apply A. now right.
Qed.

(** C2, evaluated on the two-pass [find]: with "/users/:id", "/users/*"
    and "/users/42" registered for GET in that order, the request
    (GET, "/users/42") resolves to "/users/:id", the first route without a
    wildcard whose pattern matches; the literal scan of the shipped build
    returns "/users/42" on the same table. *)
Theorem literal_path_not_first :
  find "GET" "/users/42" (tableOf [usersId; usersStar; users42])
    = Some "/users/:id"
  /\ Dist.find "GET" "/users/42" (tableOf [usersId; usersStar; users42])
    = Some "/users/42".
Proof. split; vm_compute; reflexivity. Qed.

(** C5: [find] goes through every entry without a wildcard (a star in
    its path), in registration order, before any entry with one. If some entry without a
    wildcard has the requested method and matches, the first such entry is
    the result; otherwise the result is the first matching entry with a
    wildcard, if any; so a wildcard route is returned only when no route
    without a wildcard matches, in either registration order. *)
Theorem nonwildcard_before_wildcard (rm : RouteMatcher) (m url : string) :
  (forall d e, compile d = Some e -> isWildcard e = includes "*" (path d))
  /\ (forall e, In e rm -> isWildcard e = false -> hits m url e = true ->
     exists a e' b,
       rm = a ++ e' :: b
       /\ isWildcard e' = false /\ hits m url e' = true
       /\ (forall x, In x a -> isWildcard x = false -> hits m url x = false)
       /\ find m url rm = Some (path (Matcher.route e')))
  /\ ((forall e, In e rm -> isWildcard e = false -> hits m url e = false) ->
      find m url rm = firstPath (fun e => isWildcard e && hits m url e) rm)
  /\ (forall p, find m url rm = Some p ->
      exists e,
        In e rm /\ hits m url e = true /\ p = path (Matcher.route e)
        /\ (isWildcard e = true ->
            forall x, In x rm -> isWildcard x = false -> hits m url x = false))
  /\ find "GET" "/users/7" (tableOf [usersId; usersStar]) = Some "/users/:id"
  /\ find "GET" "/users/7/posts" (tableOf [usersId; usersStar]) = Some "/users/*"
  /\ find "GET" "/users/7" (tableOf [usersStar; usersId]) = Some "/users/:id"
  /\ find "GET" "/users/7/posts" (tableOf [usersStar; usersId]) = Some "/users/*".
Proof.
  assert (P1 : forall x, In x rm -> isWildcard x = false ->
                         hits m url x = false ->
                         negb (isWildcard x) && hits m url x = false).
  { intros x _ W H. now rewrite W, H. }
  split; [intros d e C; exact (proj2 (compile_route _ C))|].
  split; [|split; [|split]].
  - intros e I W H. unfold find.
    destruct (firstPath (fun x => negb (isWildcard x) && hits m url x) rm)
      as [p|] eqn:F.
    + apply firstPath_Some in F as (a & e' & b & -> & C & -> & N).
      apply andb_true_iff in C as [C1 C2]. apply negb_true_iff in C1.
      exists a, e', b. repeat split; try assumption.
      intros x Ix Wx. rewrite forallb_forall in N.
      specialize (N x Ix). rewrite Wx in N. simpl in N.
      now apply negb_true_iff in N.
    + exfalso. pose proof (proj1 (firstPath_None _ rm) F e I) as N.
      simpl in N. rewrite W, H in N. discriminate.
  - intro A. unfold find.
    replace (firstPath (fun x => negb (isWildcard x) && hits m url x) rm)
      with (@None string); [reflexivity|].
    symmetry. apply firstPath_None. intros e I.
    destruct (isWildcard e) eqn:W; [reflexivity|].
    simpl. now apply A.
  - intros p F. unfold find in F.
    destruct (firstPath (fun x => negb (isWildcard x) && hits m url x) rm)
      as [q|] eqn:F1.
    + injection F as <-.
      apply firstPath_Some in F1 as (a & e & b & -> & C & -> & _).
      apply andb_true_iff in C as [C1 C2]. apply negb_true_iff in C1.
      exists e. repeat split; try assumption; [apply in_elt|].
      intro W. congruence.
    + pose proof (proj1 (firstPath_None _ rm) F1) as N.
      apply firstPath_Some in F as (a & e & b & -> & C & -> & _).
      apply andb_true_iff in C as [C1 C2].
      exists e. repeat split; try assumption; [apply in_elt|].
      intros _ x Ix Wx. specialize (N x Ix). simpl in N.
      now rewrite Wx in N.
  - repeat split; vm_compute; reflexivity.
Qed.

(** [nonwildcard_before_wildcard] on the two-route table, for a url both
    patterns match. *)
Lemma nonwildcard_before_wildcard_witness :
  exists a e' b,
    tableOf [usersStar; usersId] = a ++ e' :: b
    /\ isWildcard e' = false /\ hits "GET" "/users/7" e' = true
    /\ (forall x, In x a -> isWildcard x = false ->
                  hits "GET" "/users/7" x = false)
    /\ find "GET" "/users/7" (tableOf [usersStar; usersId])
       = Some (path (Matcher.route e')).
Proof.
  destruct (nonwildcard_before_wildcard (tableOf [usersStar; usersId])
              "GET" "/users/7") as (_ & H & _).
  apply (H (nth 1 (tableOf [usersStar; usersId])
                (mkCompiled usersId RAny false))).
  - vm_compute. right. left. reflexivity.
  - vm_compute. reflexivity.
  - vm_compute. reflexivity.
Defined.

End Precedence.

(* ===================================================================== *)
(** * [lookup] and [route] *)
(* ===================================================================== *)

Module Registration.

Import VariantB VariantB.Matcher VariantB.Router RouterFacts Refresh.

#[local] Arguments String.eqb : simpl never.

Definition usersApp : Elysia :=
  mkApp [mkRoute "GET" "/users/:id" (HFunction 1)].

(** An app with a literal route "/a/" and the wildcard route "/a/*". *)
Definition prefixApp : Elysia :=
  mkApp [mkRoute "GET" "/a/" (HFunction 1); mkRoute "GET" "/a/*" (HFunction 2)].

Definition prefixSpec : RouteSpec :=
  mkSpec (Some (HFunction 9)) (Some "GET") None (Some "/a/").

Definition methodOf (spec : RouteSpec) : string :=
  match spec_method spec with Some m => m | None => "" end.

(** The preconditions of [route] that do not depend on the table: a
    handler, a method, a routable method, not both keys, the slashes. *)
Definition staticViolation (spec : RouteSpec) : bool :=
  match spec_handler spec with
  | None => true
  | Some _ =>
      negb (truthy (spec_method spec))
      || negb (isRoutable (methodOf spec))
      || match spec_path spec, spec_pathPrefix spec with
         | Some _, Some _ => true
         | Some p, None => negb (startsWith "/" p)
         | None, Some pre => negb (startsWith "/" pre) || negb (endsWith "/" pre)
         | None, None => false
         end
  end.

(** "A path/method combination already matched by the existing table":
    after the refresh, [find] resolves the method with the path, or with
    the prefix, of the spec. *)
Definition alreadyMatched (this : HttpRouterWithElysia) (spec : RouteSpec)
  : bool :=
  match getRoutes this, spec_method spec with
  | (Return _, this1), Some m =>
      match spec_path spec, spec_pathPrefix spec with
      | Some p, None | None, Some p =>
          match find m p (_routeMatcher this1) with
          | Some _ => true
          | None => false
          end
      | _, _ => false
      end
  | _, _ => false
  end.

(** The precondition rule as the specification words it. *)
Definition everyViolationRaises : Prop :=
  forall (this : HttpRouterWithElysia) (spec : RouteSpec),
    staticViolation spec || alreadyMatched this spec = true ->
    exists e this',
      route spec this = (Throw e, this') /\ _app this' = _app this.

(** The entries a refresh adds carry routable methods. *)
Lemma getRoutes_methods (this this' : HttpRouterWithElysia)
    (L : list ConvexRoute) (e : CompiledRoute) :
  getRoutes this = (Return L, this') ->
  In e (_routeMatcher this') ->
  In e (_routeMatcher this)
  \/ In (method (Matcher.route e)) ROUTABLE_HTTP_METHODS.
Proof.
  intros G Ie. destruct (getRoutes_Return _ G) as (es & C & -> & _).
  simpl in Ie. apply in_app_or in Ie as [Ie|Ie]; [now left | right].
  destruct (compileAll_In _ C) as [_ I2].
  destruct (I2 e Ie) as (d & Id & Cd).
  destruct (compile_route _ Cd) as [-> _].
  apply in_expansion in Id as (m' & r' & Hm' & _ & _ & ->). exact Hm'.
Qed.

(** On a router whose table holds routable methods only, a HEAD lookup
    reports GET and returns the path it was given. *)
Lemma head_lookup_never_resolves (this this' : HttpRouterWithElysia)
    (p : string) (res : PublicHttpAction * string * string) :
  (forall e, In e (_routeMatcher this) ->
             In (method (Matcher.route e)) ROUTABLE_HTTP_METHODS) ->
  lookup p "HEAD" this = (Return res, this') ->
  res = (TheHandler, "GET", p).
Proof.
  intros A. unfold lookup, bind.
  destruct (getRoutes this) as [[L|e0] this1] eqn:G; [|discriminate].
  intro E; injection E as <- _.
  destruct (find "HEAD" p (_routeMatcher this1)) as [q|] eqn:F; [|reflexivity].
  exfalso. apply find_sound in F as (e & Ie & H & _).
  unfold hits in H. apply andb_true_iff in H as [H _].
  apply String.eqb_eq in H.
  assert (R : In (method (Matcher.route e)) ROUTABLE_HTTP_METHODS).
  { destruct (getRoutes_methods _ e G Ie) as [I|I]; [now apply A | exact I]. }
  rewrite H in R. simpl in R.
  repeat destruct R as [R|R]; try discriminate R. contradiction.
Qed.

(** C3, evaluated: with "/users/:id" registered for GET, a HEAD lookup of
    "/users/7" reports the method GET but returns the path unresolved,
    where the GET lookup returns "/users/:id"; [normalizeMethod] maps HEAD
    to GET and leaves every other method as it is. *)
Theorem head_lookup_unresolved :
  fst (lookup "/users/7" "HEAD" (new usersApp))
    = Return (TheHandler, "GET", "/users/7")
  /\ fst (lookup "/users/7" "GET" (new usersApp))
    = Return (TheHandler, "GET", "/users/:id")
  /\ normalizeMethod "HEAD" = "GET"
  /\ (forall m, m <> "HEAD" -> normalizeMethod m = m).
Proof.
  split; [vm_compute; reflexivity|].
  split; [vm_compute; reflexivity|].
  split; [reflexivity|].
  intros m N. unfold normalizeMethod.
  destruct (String.eqb_spec m "HEAD"); [contradiction | reflexivity].
Qed.

(** C6, as stated, fails: over an app that has "/a/" and "/a/*" for GET,
    [route] with the prefix "/a/" for GET finds the table matching, raises
    nothing and registers "/a/*" once more. *)
Lemma prefix_over_literal_registers : ~ everyViolationRaises.
Proof.
  intro H.
  destruct (H (new prefixApp) prefixSpec) as (e & this' & R & _).
  - vm_compute. reflexivity.
  - vm_compute in R. discriminate R.
Qed.

Ltac split_ifs :=
  repeat match goal with
  | |- context [if ?b then _ else _] => destruct b eqn:?
  | |- context [match ?o with Some _ => _ | None => _ end] => destruct o eqn:?
  end.

(** Whatever [route] raises, the app is as it was. *)
Lemma route_throw_app (this this' : HttpRouterWithElysia) (spec : RouteSpec)
    (e : exn) :
  route spec this = (Throw e, this') -> _app this' = _app this.
Proof.
  unfold route, bind.
  destruct (getRoutes this) as [[L|e0] this1] eqn:G.
  - pose proof (getRoutes_app _ G) as A.
    destruct spec as [[h|] [m|] [p|] [pre|]]; simpl;
      unfold throw, ret, registerInApp;
      split_ifs;
      intro E; try discriminate E; injection E as _ <-; exact A.
  - intro E; injection E as _ <-. exact (getRoutes_app _ G).
Qed.

(** C6, amended: a spec without handler or method, with a method that is
    not routable, with both keys, with a path that does not start with a
    slash or a prefix that does not start and end with one, a path that
    [find] resolves for the method to a declared path, and a prefix that
    [find] resolves to a declared path other than the prefix itself, each
    make [route] raise, with an [Error] and its message unless the refresh
    itself raised; and whenever [route] raises, the route list of the app
    is unchanged. *)
Theorem route_rejects (this : HttpRouterWithElysia) (spec : RouteSpec) :
  (forall e this', route spec this = (Throw e, this') -> _app this' = _app this)
  /\ (staticViolation spec = true ->
      exists e this',
        route spec this = (Throw e, this') /\ _app this' = _app this
        /\ (fst (getRoutes this) = Throw e \/ exists msg, e = Error msg))
  /\ (forall L this1 m p q,
        getRoutes this = (Return L, this1) ->
        spec_method spec = Some m -> spec_path spec = Some p ->
        find m p (_routeMatcher this1) = Some q -> q <> "" ->
        exists msg this',
          route spec this = (Throw (Error msg), this')
          /\ _app this' = _app this)
  /\ (forall L this1 m pre q,
        getRoutes this = (Return L, this1) ->
        spec_method spec = Some m -> spec_pathPrefix spec = Some pre ->
        find m pre (_routeMatcher this1) = Some q -> q <> "" -> q <> pre ->
        exists msg this',
          route spec this = (Throw (Error msg), this')
          /\ _app this' = _app this).
Proof.
  split; [intros e this'; apply route_throw_app|].
  split; [|split].
  - intro V.
    assert (T : exists e this',
               route spec this = (Throw e, this')
               /\ (fst (getRoutes this) = Throw e \/ exists msg, e = Error msg)).
    { unfold route, bind.
      destruct (getRoutes this) as [[L|e0] this1] eqn:G.
      - unfold staticViolation, methodOf in V.
        destruct spec as [[h|] [m|] [p|] [pre|]]; simpl in *;
          unfold throw, ret, registerInApp;
          split_ifs; try discriminate V;
          eexists _, _; (split; [reflexivity | right; eexists; reflexivity]).
      - exists e0, this1. split; [reflexivity | now left]. }
    destruct T as (e & this' & R & D).
    exists e, this'. split; [exact R|]. split; [exact (route_throw_app _ _ R) | exact D].
  - intros L this1 m p q G Hm Hp F Nq.
    assert (T : exists msg this', route spec this = (Throw (Error msg), this')).
    { unfold route, bind. rewrite G.
      destruct spec as [[h|] sm sp [pre|]]; simpl in *; subst sm sp;
        unfold throw, ret, registerInApp; simpl;
        split_ifs; try (eexists _, _; reflexivity).
      all: exfalso; rewrite F in *; simpl in *;
        destruct q; [now apply Nq | discriminate]. }
    destruct T as (msg & this' & R).
    exists msg, this'. split; [exact R | exact (route_throw_app _ _ R)].
  - intros L this1 m pre q G Hm Hp F Nq Npre.
    assert (T : exists msg this', route spec this = (Throw (Error msg), this')).
    { unfold route, bind. rewrite G.
      destruct spec as [[h|] sm [p|] sp]; simpl in *; subst sm sp;
        unfold throw, ret, registerInApp; simpl;
        rewrite ?F; simpl;
        split_ifs; try (eexists _, _; reflexivity).
      all: exfalso; rewrite F in *; simpl in *;
        match goal with
        | H : _ && _ = false |- _ => apply andb_false_iff in H as [H|H]
        end;
        [ destruct q; [now apply Nq | discriminate]
        | match goal with
          | H : negb _ = false |- _ =>
              apply negb_false_iff in H; apply String.eqb_eq in H;
              now apply Npre
          end ]. }
    destruct T as (msg & this' & R).
    exists msg, this'. split; [exact R | exact (route_throw_app _ _ R)].
Qed.

Definition postA : RouteSpec :=
  mkSpec (Some (HFunction 7)) (Some "POST") (Some "/a") None.

(** [route_rejects] on the second of two registrations of POST "/a". *)
Lemma route_rejects_witness :
  exists msg this',
    route postA (snd (route postA (new (mkApp [])))) = (Throw (Error msg), this')
    /\ _app this' = _app (snd (route postA (new (mkApp [])))).
Proof.
  destruct (route_rejects (snd (route postA (new (mkApp [])))) postA)
    as (_ & _ & H & _).
  apply (H [("/a", "POST", Fn 7)]
           (snd (getRoutes (snd (route postA (new (mkApp []))))))
           "POST" "/a" "/a").
  - vm_compute. reflexivity.
  - reflexivity.
  - reflexivity.
  - vm_compute. reflexivity.
  - discriminate.
Defined.

(** The second of two registrations of POST "/a" raises the error of a
    path in use, and the app keeps the one route of the first. *)
Lemma route_twice_duplicate :
  route postA (snd (route postA (new (mkApp []))))
  = (Throw (Error "Path '/a' for method POST already in use"),
     snd (getRoutes (snd (route postA (new (mkApp []))))))
  /\ routes (_app (snd (route postA (snd (route postA (new (mkApp [])))))))
     = [mkRoute "POST" "/a" (HFunction 7)].
Proof. split; vm_compute; reflexivity. Qed.

Lemma isRoutable_truthy (m : string) :
  isRoutable m = true -> truthy (Some m) = true.
Proof. destruct m; [vm_compute; discriminate | reflexivity]. Qed.

(** C10 as the specification words it: with a handler and a routable
    method but neither [path] nor [pathPrefix], [route] raises no error and
    returns the router unchanged. *)
Definition routeWithoutPathUnchanged : Prop :=
  forall (this : HttpRouterWithElysia) (h : Handler) (m : string),
    isRoutable m = true ->
    route (mkSpec (Some h) (Some m) None None) this = (Return tt, this).

(** An app whose only route has an unbalanced group in its path. *)
Definition unbalancedApp : Elysia :=
  mkApp [mkRoute "GET" "/a(" (HFunction 2)].

(** C10, as stated, fails: on a fresh router over [usersApp] the call
    returns, but the router it returns has one entry in its table where the
    router it was called on had none, and the next [getRoutes] returns two
    tuples where it would have returned one. *)
Lemma route_without_path_changes_router : ~ routeWithoutPathUnchanged.
Proof.
  intro H.
  specialize (H (new usersApp) (HFunction 5) "PUT" eq_refl).
  apply (f_equal (fun x => length (_routeMatcher (snd x)))) in H.
  vm_compute in H. discriminate H.
Qed.

(** The change shows in what the router returns next, and the call raises
    when the refresh does. *)
Lemma route_without_path_examples :
  fst (getRoutes (new usersApp)) = Return [("/users/:id", "GET", Fn 1)]
  /\ fst (getRoutes (snd (route (mkSpec (Some (HFunction 5)) (Some "PUT")
                                        None None) (new usersApp))))
     = Return [("/users/:id", "GET", Fn 1); ("/users/:id", "GET", Fn 1)]
  /\ fst (route (mkSpec (Some (HFunction 5)) (Some "PUT") None None)
                (new unbalancedApp))
     = Throw (SyntaxError "^/a(/?$").
Proof. repeat split; vm_compute; reflexivity. Qed.

(** C10, amended: with a handler and a routable method but neither
    [path] nor [pathPrefix], [route] does what [getRoutes] does and nothing
    more. It raises exactly when the refresh raises, and then what the
    refresh raised; it never touches the app; and when the refresh returns
    it returns the router as the refresh left it: the table extended by one
    entry for each declaration of the app, so that every lookup resolves as
    it did on the router before the call. *)
Theorem route_without_path (this : HttpRouterWithElysia) (h : Handler)
    (m : string) :
  isRoutable m = true ->
  route (mkSpec (Some h) (Some m) None None) this
  = (match fst (getRoutes this) with
     | Return _ => Return tt
     | Throw e => Throw e
     end, snd (getRoutes this))
  /\ _app (snd (route (mkSpec (Some h) (Some m) None None) this)) = _app this
  /\ (forall L this1,
        getRoutes this = (Return L, this1) ->
        route (mkSpec (Some h) (Some m) None None) this = (Return tt, this1)
        /\ (exists es,
              compileAll (expansion (routes (_app this))) = Some es
              /\ _routeMatcher this1 = _routeMatcher this ++ es)
        /\ (forall p m', fst (lookup p m' this1) = fst (lookup p m' this))).
Proof.
  intro R.
  assert (E : route (mkSpec (Some h) (Some m) None None) this
              = (match fst (getRoutes this) with
                 | Return _ => Return tt
                 | Throw e => Throw e
                 end, snd (getRoutes this))).
  { unfold route, bind.
    destruct (getRoutes this) as [[L|e0] this1]; [|reflexivity].
    cbn [spec_handler spec_method spec_path spec_pathPrefix fst snd].
    rewrite (isRoutable_truthy _ R), R. reflexivity. }
  split; [exact E|]. split.
  - rewrite E. cbn [snd].
    destruct (getRoutes this) as [o this1] eqn:G. exact (getRoutes_app _ G).
  - intros L this1 G. split; [|split].
    + rewrite E, G. reflexivity.
    + destruct (getRoutes_Return _ G) as (es & C & -> & _). now exists es.
    + intros p m'. unfold lookup, bind. rewrite G.
      destruct (getRoutes_Return _ G) as (es & C & -> & _).
      rewrite (getRoutes_ok (mkRouter (_app this) (_routeMatcher this ++ es)) C).
      simpl. rewrite <- app_assoc, find_repeat. reflexivity.
Qed.

(** [route_without_path] on a router over the one-route app. *)
Lemma route_without_path_witness :
  route (mkSpec (Some (HFunction 5)) (Some "PUT") None None) (new usersApp)
    = (Return tt, snd (getRoutes (new usersApp)))
  /\ (exists es,
        compileAll (expansion (routes (_app (new usersApp)))) = Some es
        /\ _routeMatcher (snd (getRoutes (new usersApp)))
           = _routeMatcher (new usersApp) ++ es)
  /\ (forall p m',
        fst (lookup p m' (snd (getRoutes (new usersApp))))
        = fst (lookup p m' (new usersApp))).
Proof.
  destruct (@route_without_path (new usersApp) (HFunction 5) "PUT" eq_refl)
    as (_ & _ & H).
  apply (H [("/users/:id", "GET", Fn 1)] (snd (getRoutes (new usersApp)))).
  vm_compute. reflexivity.
Defined.

End Registration.

(* ===================================================================== *)
(** * Where a compiled pattern is anchored *)
(* ===================================================================== *)

Module Anchoring.

Import RegExpFacts PatternShape LiteralPaths.

(** A pattern is anchored at the start when a match can only begin at the
    first character of the url. *)
Definition anchoredAtStart (r : re) : Prop :=
  forall url, test r url = matchAt r (true, url).

(** The first half of the anchoring rule as the specification words it,
    for the patterns of Variant A. *)
Definition variantA_anchoredAtStart : Prop :=
  forall p r, RegExp (VariantA.regexStr p) = Some r -> anchoredAtStart r.

(** C4, as stated, fails for Variant A: the pattern of the path "/b"
    matches the url "/a/b", from its third character on. *)
Lemma variantA_matches_in_the_middle : ~ variantA_anchoredAtStart.
Proof.
  intro H.
  specialize (H "/b" (RSeq [RChar "/"; RChar "b"; REol]) eq_refl "/a/b").
  vm_compute in H. discriminate H.
Qed.

(** In Variant A, [find] resolves "/a/b" to the route declared as "/b". *)
Lemma variantA_find_suffix :
  VariantA.find "GET" "/a/b"
    (snd (VariantA.add (mkRoute "GET" "/b" (HFunction 0)) []))
  = Some "/b".
Proof. vm_compute. reflexivity. Qed.

(** Alternation undoes the anchoring: the pattern of the path "/a|b" in
    Variant B is [^/a] or [b/?$], so it matches a url that only begins with
    "/a" and a url that only ends with "b". *)
Lemma alternation_breaks_anchoring :
  exists r,
    RegExp (VariantB.Matcher.regexStr "/a|b") = Some r
    /\ r = RAlt [RSeq [RBol; RChar "/"; RChar "a"];
                 RSeq [RChar "b"; ROpt (RChar "/"); REol]]
    /\ test r "/a/anything" = true
    /\ test r "/x/y/b" = true.
Proof. eexists. repeat split; vm_compute; reflexivity. Qed.

(** C4, amended: for a path without ['|'] whose pattern [RegExp] reads, a
    pattern of Variant A is anchored at the end of the url only: it is a
    body followed by [$], a match may begin anywhere and ends where the url
    ends, and a literal path matches exactly the urls that end with it. A
    pattern of Variant B is anchored at both ends and allows one slash at
    the end: it is [^], a body, an optional slash and [$], a match begins
    at the first character, and a literal path matches exactly itself
    without its final slash, and that followed by a slash. *)
Theorem compiled_pattern_anchoring (p : string) :
  includes "|" p = false ->
  (forall r, RegExp (VariantA.regexStr p) = Some r ->
     exists body,
       r = RSeq (body ++ [REol])
       /\ forall b s, matchAt r (b, s) = matchSeq body atEnd (b, s))
  /\ (forall r, RegExp (VariantB.Matcher.regexStr p) = Some r ->
     exists body,
       r = RSeq (RBol :: body ++ [ROpt (RChar "/"); REol])
       /\ anchoredAtStart r
       /\ forall url, test r url = matchSeq body slashThenEnd (true, url))
  /\ (literalPath p = true ->
     exists rA rB,
       RegExp (VariantA.regexStr p) = Some rA
       /\ RegExp (VariantB.Matcher.regexStr p) = Some rB
       /\ (forall url, test rA url = true <-> exists pre, url = (pre ++ p)%string)
       /\ (forall url, test rB url = true <->
            url = stripTrailingSlash p
            \/ url = (stripTrailingSlash p ++ "/")%string)).
Proof.
  intro N. split; [|split].
  - intros r C. destruct (variantA_shape _ N C) as [body ->].
    exists body. split; [reflexivity|]. intros b s.
    unfold matchAt. rewrite matchRe_seq, matchSeq_app. reflexivity.
  - intros r C. destruct (variantB_shape _ N C) as [body ->].
    exists body. split; [reflexivity|]. split.
    + intro url. rewrite test_bol. unfold matchAt.
      rewrite matchRe_seq. reflexivity.
    + intro url. rewrite test_bol, matchSeq_app. reflexivity.
  - intro L. eexists _, _.
    split; [exact (variantA_literal _ L)|].
    split; [exact (variantB_literal _ L)|].
    split.
    + intro url. apply search_literal_A.
    + intro url. apply test_literal_B.
Qed.

(** [compiled_pattern_anchoring] on the literal path "/users/". *)
Lemma compiled_pattern_anchoring_witness :
  includes "|" "/users/" = false
  /\ exists rA rB,
    RegExp (VariantA.regexStr "/users/") = Some rA
    /\ RegExp (VariantB.Matcher.regexStr "/users/") = Some rB
    /\ (forall url, test rA url = true <->
          exists pre, url = (pre ++ "/users/")%string)
    /\ (forall url, test rB url = true <->
          url = stripTrailingSlash "/users/"
          \/ url = (stripTrailingSlash "/users/" ++ "/")%string).
Proof.
  split; [reflexivity|].
  destruct (@compiled_pattern_anchoring "/users/" eq_refl) as (_ & _ & H).
  apply H. vm_compute. reflexivity.
Defined.

End Anchoring.

(* ===================================================================== *)
(** * Words and parameter names in a path *)
(* ===================================================================== *)

Module Compilable.

Import RegExpFacts.

#[local] Arguments Ascii.eqb : simpl never.

Lemma word_char (c : ascii) :
  isWordChar c = true ->
  isSpecial c = false /\ Ascii.eqb c ":" = false /\ Ascii.eqb c "*" = false.
Proof.
  destruct c as [[] [] [] [] [] [] [] []]; vm_compute;
    intro H; try discriminate H; repeat split.
Qed.

Lemma replaceStars_word (w rest : string) :
  allChars isWordChar w = true ->
  replaceStars (w ++ rest) = (w ++ replaceStars rest)%string.
Proof.
  induction w as [|c w IH]; simpl; [reflexivity|].
  intro A. apply andb_true_iff in A as [A1 A2].
  destruct (word_char _ A1) as (_ & _ & ->). now rewrite (IH A2).
Qed.

(** Inside a word no parameter begins. *)
Lemma replaceParams_word (w rest : string) :
  allChars isWordChar w = true ->
  replaceParams false (w ++ rest) = (w ++ replaceParams false rest)%string.
Proof.
  induction w as [|c w IH]; simpl; [reflexivity|].
  intro A. apply andb_true_iff in A as [A1 A2].
  destruct (word_char _ A1) as (_ & -> & _). simpl. now rewrite (IH A2).
Qed.

(** The name of a parameter is consumed whole. *)
Lemma replaceParams_name (w rest : string) :
  allChars isWordChar w = true ->
  replaceParams true (w ++ rest) = replaceParams true rest.
Proof.
  induction w as [|c w IH]; simpl; [reflexivity|].
  intro A. apply andb_true_iff in A as [A1 A2].
  rewrite A1. simpl. exact (IH A2).
Qed.

Lemma replaceParams_slash (inName : bool) (s : string) :
  replaceParams inName (String "/" s) = String "/" (replaceParams false s).
Proof. destruct inName; reflexivity. Qed.

Lemma replaceParams_colon (s : string) :
  startsWithWord s = true ->
  replaceParams false (String ":" s) = (paramGroup ++ replaceParams true s)%string.
Proof.
  intro H. cbn [replaceParams andb]. rewrite H.
  change (Ascii.eqb ":" ":") with true. reflexivity.
Qed.

Lemma parseFrom_word (w : string) (st : pstate) :
  allChars isWordChar w = true -> pmode st = InPattern ->
  parseFrom st w = Some (mkP (frames st) (charsRev w (cur st)) InPattern).
Proof.
  intros A. apply parseFrom_literal.
  revert A. apply allChars_weaken. intros c H.
  destruct (word_char _ H) as (-> & _). reflexivity.
Qed.

End Compilable.

(* ===================================================================== *)
(** * The error boundary of the dispatch entry point *)
(* ===================================================================== *)

Module DispatchBoundary.

Import Dispatch.

(** A dispatch that always raises. *)
Definition failing (payload : string) : nat -> M (World nat unit) Response :=
  fun _ => throw (Thrown payload).

(** C8: whatever [_app.handle] does, the entry point returns a response
    and never raises. When the dispatch raises [e], the response is the
    fixed one, status 500 and body "Internal Server Error", the same for
    every [e], and [e] is logged on the console; when the dispatch returns
    a response, that response is returned and nothing is logged. *)
Theorem dispatch_never_raises (Ctx Request AppState : Type)
    (handle : Request -> M (World Ctx AppState) Response)
    (ctx : Ctx) (request : Request) (w : World Ctx AppState) :
  (exists resp w', _handler handle ctx request w = (Return resp, w'))
  /\ (forall e w1,
        handle request (snd (set_ctx ctx w)) = (Throw e, w1) ->
        _handler handle ctx request w
        = (Return (mkResponse "Internal Server Error" 500),
           mkWorld (decorator_ctx w1) (app_state w1) (console w1 ++ [e])))
  /\ (forall resp w1,
        handle request (snd (set_ctx ctx w)) = (Return resp, w1) ->
        _handler handle ctx request w = (Return resp, w1)).
Proof.
  unfold _handler, bind, try_catch, set_ctx, console_log, ret,
    internalServerError; simpl.
  destruct (handle request _) as [[resp|e] w1] eqn:H; repeat split.
  - now exists resp, w1.
  - intros e w2 E. discriminate E.
  - intros resp' w2 E. injection E as -> ->. reflexivity.
  - eexists _, _. reflexivity.
  - intros e' w2 E. injection E as -> ->. reflexivity.
  - intros resp w2 E. discriminate E.
Qed.

(** [dispatch_never_raises] on a dispatch that raises. *)
Lemma dispatch_never_raises_witness :
  _handler (failing "boom") 1 2 (mkWorld None tt [])
  = (Return (mkResponse "Internal Server Error" 500),
     mkWorld (Some 1) tt [Thrown "boom"]).
Proof.
  destruct (dispatch_never_raises (failing "boom") 1 2 (mkWorld None tt []))
    as (_ & H & _).
  exact (H (Thrown "boom") (mkWorld (Some 1) tt []) eq_refl).
Defined.

End DispatchBoundary.

(* ===================================================================== *)
(** * What a refresh returns, raises and leaves behind *)
(* ===================================================================== *)

Module RefreshOutput.

Import VariantB VariantB.Matcher VariantB.Router RouterFacts Refresh.

#[local] Arguments String.eqb : simpl never.

(** The tuple of a declaration. *)
Definition tupleOf (d : InternalRoute) : ConvexRoute :=
  (path d, method d, callable (handler d)).

(** An app whose second route has an unbalanced group in its path. *)
Definition brokenApp : Elysia :=
  mkApp [mkRoute "GET" "/ok" (HFunction 1); mkRoute "GET" "/a(" (HFunction 2)].

Lemma compileAll_routes (ds : list InternalRoute) (es : RouteMatcher) :
  compileAll ds = Some es -> map Matcher.route es = ds.
Proof.
  revert es; induction ds as [|d ds IH]; intro es; simpl.
  - intro E; injection E as <-. reflexivity.
  - destruct (compile d) as [e|] eqn:C; [|discriminate].
    destruct (compileAll ds) as [es'|]; [|discriminate].
    intro E; injection E as <-. simpl.
    rewrite (IH es' eq_refl). now destruct (compile_route _ C) as [-> _].
Qed.

Lemma toConvexRoutes_compiled (ds : list InternalRoute) (es : RouteMatcher) :
  compileAll ds = Some es -> toConvexRoutes es = map tupleOf ds.
Proof.
  intro C. rewrite <- (compileAll_routes _ C).
  unfold toConvexRoutes. rewrite map_map. reflexivity.
Qed.

(** Either every declaration compiles, or there is a first one that does
    not. *)
Lemma compileAll_split (ds : list InternalRoute) :
  (exists es, compileAll ds = Some es)
  \/ (exists ds1 d ds2 es1,
        ds = ds1 ++ d :: ds2 /\ compileAll ds1 = Some es1 /\ compile d = None).
Proof.
  induction ds as [|d ds IH].
  - left. now exists [].
  - destruct (compile d) as [e|] eqn:C.
    + destruct IH as [[es E]|(ds1 & x & ds2 & es1 & -> & E & N)].
      * left. exists (e :: es). simpl. now rewrite C, E.
      * right. exists (d :: ds1), x, ds2, (e :: es1). simpl.
        rewrite C, E. now repeat split.
    + right. now exists [], d, ds, [].
Qed.

Lemma addAll_throw (ds1 ds2 : list InternalRoute) (d : InternalRoute)
    (es1 rm : RouteMatcher) :
  compileAll ds1 = Some es1 -> compile d = None ->
  forEach (ds1 ++ d :: ds2) add rm
  = (Throw (compileError (regexStr (path d))), rm ++ es1).
Proof.
  intros C N. rewrite forEach_app, (addAll_ok _ _ C). simpl.
  unfold bind. rewrite add_run, N. reflexivity.
Qed.

(** [getRoutes] returns the tuples of the table it started from followed
    by one tuple per routable method and app route declared for that
    method or for "ALL", method by method in the order of
    [ROUTABLE_HTTP_METHODS] and in the app's order within a method; a route
    of any other method contributes nothing. *)
Theorem getRoutes_tuples (this this' : HttpRouterWithElysia)
    (L : list ConvexRoute) :
  getRoutes this = (Return L, this') ->
  L = toConvexRoutes (_routeMatcher this)
      ++ map tupleOf (expansion (routes (_app this)))
  /\ (forall p m c,
        In (p, m, c) (map tupleOf (expansion (routes (_app this)))) <->
        exists r,
          In r (routes (_app this)) /\ path r = p /\ callable (handler r) = c
          /\ In m ROUTABLE_HTTP_METHODS
          /\ (method r = m \/ method r = "ALL")).
Proof.
  intro G. destruct (getRoutes_Return _ G) as (es & C & _ & ->). split.
  - rewrite toConvexRoutes_app, (toConvexRoutes_compiled _ C). reflexivity.
  - intros p m c. rewrite in_map_iff. split.
    + intros (d & E & I). apply in_expansion in I as (m' & r & Hm & Hr & S & ->).
      unfold tupleOf in E. simpl in E. injection E as <- <- <-.
      exists r. repeat split; try assumption.
      unfold selects in S. apply orb_true_iff in S as [S|S];
        apply String.eqb_eq in S; [now left | now right].
    + intros (r & Hr & <- & <- & Hm & S).
      exists (withMethod r m). split; [reflexivity|].
      apply in_expansion. exists m, r. repeat split; try assumption.
      unfold selects. apply orb_true_iff.
      destruct S as [S|S]; rewrite S; [left | right]; apply String.eqb_refl.
Qed.

(** [getRoutes_tuples] on a fresh router over [allApp]. *)
Lemma getRoutes_tuples_witness :
  [("/x/", "GET", Noop); ("/x/", "POST", Noop); ("/x/", "PUT", Noop);
   ("/x/", "DELETE", Noop); ("/x/", "OPTIONS", Noop); ("/x/", "PATCH", Noop)]
  = toConvexRoutes (_routeMatcher (new allApp))
    ++ map tupleOf (expansion (routes (_app (new allApp))))
  /\ (forall p m c,
        In (p, m, c) (map tupleOf (expansion (routes (_app (new allApp))))) <->
        exists r,
          In r (routes (_app (new allApp))) /\ path r = p
          /\ callable (handler r) = c
          /\ In m ROUTABLE_HTTP_METHODS
          /\ (method r = m \/ method r = "ALL")).
Proof.
  apply (@getRoutes_tuples (new allApp) (snd (getRoutes (new allApp)))).
  vm_compute. reflexivity.
Defined.

(** A refresh returns, or stops at the first declaration whose pattern
    gives no regex and leaves the entries of the declarations before it. *)
Lemma getRoutes_cases (this : HttpRouterWithElysia) :
  (exists es,
      compileAll (expansion (routes (_app this))) = Some es
      /\ getRoutes this
         = (Return (toConvexRoutes (_routeMatcher this ++ es)),
            mkRouter (_app this) (_routeMatcher this ++ es)))
  \/ (exists ds1 d ds2 es1,
        expansion (routes (_app this)) = ds1 ++ d :: ds2
        /\ compileAll ds1 = Some es1 /\ compile d = None
        /\ getRoutes this
           = (Throw (compileError (regexStr (path d))),
              mkRouter (_app this) (_routeMatcher this ++ es1))).
Proof.
  destruct (compileAll_split (expansion (routes (_app this))))
    as [[es C]|(ds1 & d & ds2 & es1 & E & C & N)].
  - left. exists es. split; [exact C | exact (getRoutes_ok this C)].
  - right. exists ds1, d, ds2, es1.
    repeat split; try assumption.
    rewrite getRoutes_eq, E,
      (@addAll_throw ds1 ds2 d es1 (_routeMatcher this) C N).
    reflexivity.
Qed.

(** When every declaration's pattern is in the syntax [JsRegExp] reads,
    [getRoutes] either returns, having added the entry of every
    declaration, or raises the [SyntaxError] of the first declaration whose
    pattern does not compile; then the entries of the declarations before
    it stay in the table. [lookup] and [route] raise the same exception in
    the same state. *)
Theorem getRoutes_outcome (this : HttpRouterWithElysia) :
  (forall d, In d (expansion (routes (_app this))) ->
             outsideModel (regexStr (path d)) = false) ->
  (exists es,
      compileAll (expansion (routes (_app this))) = Some es
      /\ getRoutes this
         = (Return (toConvexRoutes (_routeMatcher this ++ es)),
            mkRouter (_app this) (_routeMatcher this ++ es)))
  \/ (exists ds1 d ds2 es1,
        expansion (routes (_app this)) = ds1 ++ d :: ds2
        /\ compileAll ds1 = Some es1
        /\ RegExp (regexStr (path d)) = None
        /\ getRoutes this
           = (Throw (SyntaxError (regexStr (path d))),
              mkRouter (_app this) (_routeMatcher this ++ es1))
        /\ (forall p m,
              lookup p m this
              = (Throw (SyntaxError (regexStr (path d))),
                 mkRouter (_app this) (_routeMatcher this ++ es1)))
        /\ (forall spec,
              route spec this
              = (Throw (SyntaxError (regexStr (path d))),
                 mkRouter (_app this) (_routeMatcher this ++ es1)))).
Proof.
  intro Inside.
  destruct (getRoutes_cases this)
    as [H|(ds1 & d & ds2 & es1 & E & C & N & G)]; [now left|].
  right. exists ds1, d, ds2, es1.
  assert (I : outsideModel (regexStr (path d)) = false).
  { apply Inside. rewrite E. apply in_elt. }
  unfold compileError in G. rewrite I in G.
  split; [exact E|]. split; [exact C|]. split.
  { unfold compile in N. destruct (RegExp (regexStr (path d)));
      [discriminate | reflexivity]. }
  split; [exact G|]. split.
  - intros p m. unfold lookup, bind. now rewrite G.
  - intro spec. unfold route, bind. now rewrite G.
Qed.

(** On [brokenApp] the refresh raises at the second route and keeps the
    entry of the first. *)
Lemma getRoutes_raises_example :
  fst (getRoutes (new brokenApp)) = Throw (SyntaxError "^/a(/?$")
  /\ toConvexRoutes (_routeMatcher (snd (getRoutes (new brokenApp))))
     = [("/ok", "GET", Fn 1)]
  /\ _app (snd (getRoutes (new brokenApp))) = brokenApp.
Proof. repeat split; vm_compute; reflexivity. Qed.

(** A path with a brace: its pattern is not read, and the refresh ends
    with [Unmodelled], not with a [SyntaxError]. *)
Lemma getRoutes_unmodelled_example :
  fst (getRoutes (new (mkApp [mkRoute "GET" "/items/{id}" (HFunction 1)])))
  = Throw (Unmodelled "^/items/{id}/?$").
Proof. vm_compute. reflexivity. Qed.

(** [getRoutes_outcome] on [brokenApp], whose patterns are "^/ok/?$" and
    "^/a(/?$". *)
Lemma getRoutes_outcome_witness :
  (exists es,
      compileAll (expansion (routes (_app (new brokenApp)))) = Some es
      /\ getRoutes (new brokenApp)
         = (Return (toConvexRoutes (_routeMatcher (new brokenApp) ++ es)),
            mkRouter (_app (new brokenApp))
                     (_routeMatcher (new brokenApp) ++ es)))
  \/ (exists ds1 d ds2 es1,
        expansion (routes (_app (new brokenApp))) = ds1 ++ d :: ds2
        /\ compileAll ds1 = Some es1
        /\ RegExp (regexStr (path d)) = None
        /\ getRoutes (new brokenApp)
           = (Throw (SyntaxError (regexStr (path d))),
              mkRouter (_app (new brokenApp))
                       (_routeMatcher (new brokenApp) ++ es1))
        /\ (forall p m,
              lookup p m (new brokenApp)
              = (Throw (SyntaxError (regexStr (path d))),
                 mkRouter (_app (new brokenApp))
                          (_routeMatcher (new brokenApp) ++ es1)))
        /\ (forall spec,
              route spec (new brokenApp)
              = (Throw (SyntaxError (regexStr (path d))),
                 mkRouter (_app (new brokenApp))
                          (_routeMatcher (new brokenApp) ++ es1)))).
Proof.
  apply (@getRoutes_outcome (new brokenApp)).
  intros d I. vm_compute in I.
  destruct I as [<-|[<-|[]]]; vm_compute; reflexivity.
Defined.

End RefreshOutput.

(* ===================================================================== *)
(** * What the router keeps: the table only grows *)
(* ===================================================================== *)

Module RouterInvariants.

Import VariantB VariantB.Matcher VariantB.Router RouterFacts Refresh
  Registration RefreshOutput.

#[local] Arguments String.eqb : simpl never.

(** The route a spec asks an app with the given prefix to register, if
    any. *)
Definition registered (prefix : string) (spec : RouteSpec)
  : list InternalRoute :=
  match spec_handler spec, spec_method spec with
  | Some h, Some m =>
      match spec_path spec, spec_pathPrefix spec with
      | Some p, None => [mkRoute m (prefix ++ p) h]
      | None, Some pre => [mkRoute m (prefix ++ (pre ++ "*")) h]
      | _, _ => []
      end
  | _, _ => []
  end.

Lemma getRoutes_grows (this this' : HttpRouterWithElysia)
    (o : outcome (list ConvexRoute)) :
  getRoutes this = (o, this') ->
  _app this' = _app this
  /\ exists added, _routeMatcher this' = _routeMatcher this ++ added.
Proof.
  intro G. split; [exact (getRoutes_app _ G)|].
  destruct (getRoutes_cases this)
    as [(es & _ & E)|(ds1 & d & ds2 & es1 & _ & _ & _ & E)];
    rewrite E in G; injection G as _ <-; eexists; reflexivity.
Qed.

(** What [route] leaves in the app when it returns. *)
Lemma route_Return_app (this this' : HttpRouterWithElysia) (spec : RouteSpec) :
  route spec this = (Return tt, this') ->
  staticViolation spec = false
  /\ config_prefix (_app this') = config_prefix (_app this)
  /\ routes (_app this')
     = routes (_app this) ++ registered (config_prefix (_app this)) spec.
Proof.
  unfold route, bind.
  destruct (getRoutes this) as [[L|e0] this1] eqn:G; [|discriminate].
  pose proof (getRoutes_app _ G) as A.
  unfold staticViolation, registered, methodOf.
  destruct spec as [[h|] [m|] [p|] [pre|]]; simpl;
    unfold throw, ret, registerInApp, app_route;
    split_ifs;
    intro E; try discriminate E; injection E as <-; simpl;
    rewrite ?A, ?app_nil_r; repeat split; reflexivity.
Qed.

(** No method of the router removes or reorders anything: whatever the
    outcome, [getRoutes], [lookup] and [route] leave a table that extends
    the one they found; [getRoutes] and [lookup] leave the app's routes as
    they were, and [route] adds at most one route at their end. *)
Theorem router_only_appends (this this' : HttpRouterWithElysia) :
  (forall o, getRoutes this = (o, this') ->
     _app this' = _app this
     /\ exists added, _routeMatcher this' = _routeMatcher this ++ added)
  /\ (forall p m o, lookup p m this = (o, this') ->
     _app this' = _app this
     /\ exists added, _routeMatcher this' = _routeMatcher this ++ added)
  /\ (forall spec o, route spec this = (o, this') ->
     (exists added, _routeMatcher this' = _routeMatcher this ++ added)
     /\ exists new,
          routes (_app this') = routes (_app this) ++ new
          /\ length new <= 1).
Proof.
  split; [|split].
  - intros o G. exact (getRoutes_grows _ G).
  - intros p m o. unfold lookup, bind.
    destruct (getRoutes this) as [[L|e0] this1] eqn:G;
      intro E; injection E as _ <-; exact (getRoutes_grows _ G).
  - intros spec o R.
    assert (T : exists added, _routeMatcher this' = _routeMatcher this ++ added).
    { revert R. unfold route, bind.
      destruct (getRoutes this) as [[L|e0] this1] eqn:G.
      - destruct (getRoutes_grows _ G) as [_ T].
        destruct spec as [[h|] [m|] [p|] [pre|]]; simpl;
          unfold throw, ret, registerInApp;
          split_ifs;
          intro E; injection E as _ <-; exact T.
      - intro E; injection E as _ <-. exact (proj2 (getRoutes_grows _ G)). }
    split; [exact T|].
    destruct o as [[]|e].
    + destruct (route_Return_app _ _ R) as (_ & _ & E).
      exists (registered (config_prefix (_app this)) spec). split; [exact E|].
      unfold registered.
      destruct spec as [[h|] [m|] [p|] [pre|]]; simpl; lia.
    + exists []. rewrite app_nil_r, (route_throw_app _ _ R).
      split; [reflexivity | simpl; lia].
Qed.

End RouterInvariants.

(* ===================================================================== *)
(** * What [lookup] resolves to, and [route] followed by [lookup] *)
(* ===================================================================== *)

Module LookupResolution.

Import RegExpFacts LiteralPaths.
Import VariantB VariantB.Matcher VariantB.Router RouterFacts Refresh
  Registration RefreshOutput RouterInvariants.

#[local] Arguments String.eqb : simpl never.
#[local] Arguments Ascii.eqb : simpl never.

(** No declared path, in the table or in the app, is the empty string. *)
Definition noEmptyPath (this : HttpRouterWithElysia) : Prop :=
  (forall e, In e (_routeMatcher this) -> path (Matcher.route e) <> "")
  /\ (forall r, In r (routes (_app this)) -> path r <> "").

Definition getA : RouteSpec :=
  mkSpec (Some (HFunction 4)) (Some "GET") (Some "/a") None.

Lemma find_None_hits (m url : string) (rm : RouteMatcher) :
  find m url rm = None -> forall e, In e rm -> hits m url e = false.
Proof.
  intros F e I. destruct (hits m url e) eqn:H; [|reflexivity].
  exfalso. exact (find_hit m url rm e I H F).
Qed.

Lemma isRoutable_In (m : string) :
  isRoutable m = true -> In m ROUTABLE_HTTP_METHODS.
Proof.
  unfold isRoutable. intro H. apply existsb_exists in H as (x & I & E).
  apply String.eqb_eq in E. now subst.
Qed.

Lemma routable_normalize (m : string) :
  In m ROUTABLE_HTTP_METHODS -> normalizeMethod m = m.
Proof.
  simpl. intro I. repeat destruct I as [<-|I]; try reflexivity. contradiction.
Qed.

Lemma routable_not_all (m : string) :
  In m ROUTABLE_HTTP_METHODS -> m <> "ALL".
Proof.
  simpl. intro I. repeat destruct I as [<-|I]; try discriminate. contradiction.
Qed.

(** An entry a refresh adds is compiled from an app route declared for
    its method or for "ALL". *)
Lemma refreshed_entry (rs : list InternalRoute) (es : RouteMatcher)
    (e : CompiledRoute) :
  compileAll (expansion rs) = Some es -> In e es ->
  exists r,
    In r rs
    /\ In (method (Matcher.route e)) ROUTABLE_HTTP_METHODS
    /\ (method r = method (Matcher.route e) \/ method r = "ALL")
    /\ compile (withMethod r (method (Matcher.route e))) = Some e
    /\ path (Matcher.route e) = path r.
Proof.
  intros C I. destruct (compileAll_In _ C) as [_ I2].
  destruct (I2 e I) as (d & Id & Cd).
  destruct (compile_route _ Cd) as [Re _].
  apply in_expansion in Id as (m & r & Hm & Hr & S & ->).
  rewrite Re. simpl. exists r. repeat split; try assumption.
  unfold selects in S. apply orb_true_iff in S as [S|S];
    apply String.eqb_eq in S; [now left | now right].
Qed.

(** [lookup] never makes a path up: when it returns, the method is the
    normalized one and the path is either the one it was given, and then no
    entry of the table has the method and a pattern that matches, or the
    declared path of an entry that has both; that entry was in the table
    before or is compiled from an app route declared for the method or for
    "ALL". *)
Theorem lookup_resolves (this this' : HttpRouterWithElysia) (p m : string)
    (res : PublicHttpAction * string * string) :
  lookup p m this = (Return res, this') ->
  snd (fst res) = normalizeMethod m
  /\ ((snd res = p
       /\ forall e, In e (_routeMatcher this') -> hits m p e = false)
      \/ (exists e,
            In e (_routeMatcher this') /\ hits m p e = true
            /\ snd res = path (Matcher.route e)
            /\ (In e (_routeMatcher this)
                \/ exists r,
                     In r (routes (_app this))
                     /\ (method r = m \/ method r = "ALL")
                     /\ In m ROUTABLE_HTTP_METHODS
                     /\ compile (withMethod r m) = Some e))).
Proof.
  unfold lookup, bind.
  destruct (getRoutes this) as [[L|e0] this1] eqn:G; [|discriminate].
  intro E; injection E as <- <-. split; [reflexivity|].
  destruct (find m p (_routeMatcher this1)) as [q|] eqn:F.
  - right. apply find_sound in F as (e & Ie & H & ->).
    exists e. repeat split; try assumption.
    destruct (getRoutes_Return _ G) as (es & C & -> & _).
    simpl in Ie. apply in_app_or in Ie as [Ie|Ie]; [now left | right].
    destruct (@refreshed_entry _ es e C Ie) as (r & Hr & Hm & S & Ce & _).
    unfold hits in H. apply andb_true_iff in H as [H _].
    apply String.eqb_eq in H. rewrite H in *. now exists r.
  - left. split; [reflexivity | exact (find_None_hits _ _ _ F)].
Qed.

(** [lookup_resolves] on a lookup that matches a parameter route. *)
Lemma lookup_resolves_witness :
  snd (fst (TheHandler, "GET", "/users/:id")) = normalizeMethod "GET"
  /\ ((snd (TheHandler, "GET", "/users/:id") = "/users/7"
       /\ forall e, In e (_routeMatcher (snd (lookup "/users/7" "GET" (new usersApp)))) ->
                    hits "GET" "/users/7" e = false)
      \/ (exists e,
            In e (_routeMatcher (snd (lookup "/users/7" "GET" (new usersApp))))
            /\ hits "GET" "/users/7" e = true
            /\ snd (TheHandler, "GET", "/users/:id") = path (Matcher.route e)
            /\ (In e (_routeMatcher (new usersApp))
                \/ exists r,
                     In r (routes (_app (new usersApp)))
                     /\ (method r = "GET" \/ method r = "ALL")
                     /\ In "GET" ROUTABLE_HTTP_METHODS
                     /\ compile (withMethod r "GET") = Some e))).
Proof.
  apply (@lookup_resolves (new usersApp)
           (snd (lookup "/users/7" "GET" (new usersApp))) "/users/7" "GET"
           (TheHandler, "GET", "/users/:id")).
  vm_compute. reflexivity.
Defined.

(** The app of the README: created with the prefix "/api". *)
Definition apiApp : Elysia := mkElysia "/api" [].

(** When [route] returns, the spec met every rule on its format and the
    app has exactly one more route at the end of its list (none for a spec
    with neither key): its method is the spec's and routable, its handler
    the spec's, and its path is the app's prefix followed by the spec's
    path, which starts with a slash, or followed by the spec's prefix,
    which starts and ends with a slash, and a star. *)
Theorem route_registers_valid (this this' : HttpRouterWithElysia)
    (spec : RouteSpec) :
  route spec this = (Return tt, this') ->
  staticViolation spec = false
  /\ config_prefix (_app this') = config_prefix (_app this)
  /\ routes (_app this')
     = routes (_app this) ++ registered (config_prefix (_app this)) spec
  /\ (forall r, In r (registered (config_prefix (_app this)) spec) ->
        isRoutable (method r) = true
        /\ spec_method spec = Some (method r)
        /\ spec_handler spec = Some (handler r)
        /\ ((exists p,
               spec_path spec = Some p
               /\ startsWith "/" p = true
               /\ path r = (config_prefix (_app this) ++ p)%string)
            \/ exists pre,
                 spec_pathPrefix spec = Some pre
                 /\ startsWith "/" pre = true
                 /\ endsWith "/" pre = true
                 /\ path r
                    = (config_prefix (_app this) ++ pre ++ "*")%string)).
Proof.
  intro R. destruct (route_Return_app _ _ R) as (V & P & E).
  split; [exact V|]. split; [exact P|]. split; [exact E|].
  intros r I. unfold staticViolation, methodOf in V. unfold registered in I.
  destruct spec as [[h|] [m|] [p|] [pre|]]; simpl in *;
    try contradiction; destruct I as [<-|[]]; simpl;
    repeat match goal with
    | H : _ || _ = false |- _ => apply orb_false_iff in H as [? ?]
    | H : negb _ = false |- _ => apply negb_false_iff in H
    end.
  - repeat split; try assumption. left. exists p. now repeat split.
  - repeat split; try assumption. right. exists pre. now repeat split.
Qed.

(** [route_registers_valid] on the registration of GET "/a" in the app
    with the prefix "/api": the route registered is GET "/api/a". *)
Lemma route_registers_valid_witness :
  routes (_app (snd (route getA (new apiApp))))
  = [mkRoute "GET" "/api/a" (HFunction 4)]
  /\ staticViolation getA = false
  /\ config_prefix (_app (snd (route getA (new apiApp))))
     = config_prefix (_app (new apiApp))
  /\ routes (_app (snd (route getA (new apiApp))))
     = routes (_app (new apiApp))
       ++ registered (config_prefix (_app (new apiApp))) getA
  /\ (forall r, In r (registered (config_prefix (_app (new apiApp))) getA) ->
        isRoutable (method r) = true
        /\ spec_method getA = Some (method r)
        /\ spec_handler getA = Some (handler r)
        /\ ((exists p,
               spec_path getA = Some p
               /\ startsWith "/" p = true
               /\ path r = (config_prefix (_app (new apiApp)) ++ p)%string)
            \/ exists pre,
                 spec_pathPrefix getA = Some pre
                 /\ startsWith "/" pre = true
                 /\ endsWith "/" pre = true
                 /\ path r
                    = (config_prefix (_app (new apiApp)) ++ pre ++ "*")%string)).
Proof.
  split; [vm_compute; reflexivity|].
  apply (@route_registers_valid (new apiApp) (snd (route getA (new apiApp)))).
  vm_compute. reflexivity.
Defined.

End LookupResolution.

(* ===================================================================== *)
(** * Registering a literal path, then looking it up *)
(* ===================================================================== *)

Module RoundTrip.

Import RegExpFacts LiteralPaths.
Import VariantB VariantB.Matcher VariantB.Router RouterFacts Refresh
  Registration RefreshOutput RouterInvariants LookupResolution.

#[local] Arguments String.eqb : simpl never.
#[local] Arguments Ascii.eqb : simpl never.

Lemma compileAll_total (ds : list InternalRoute) :
  (forall d, In d ds -> exists e, compile d = Some e) ->
  exists es, compileAll ds = Some es.
Proof.
  intro A. destruct (compileAll_split ds)
    as [H|(ds1 & d & ds2 & es1 & -> & _ & N)]; [exact H|].
  destruct (A d) as [e E]; [apply in_elt | congruence].
Qed.

Lemma firstPath_unique (cond : CompiledRoute -> bool) (rm : RouteMatcher)
    (p : string) :
  (exists e, In e rm /\ cond e = true) ->
  (forall e, In e rm -> cond e = true -> path (Matcher.route e) = p) ->
  firstPath cond rm = Some p.
Proof.
  intros (e & I & C) U.
  destruct (firstPath cond rm) as [q|] eqn:F.
  - apply firstPath_Some in F as (a & x & b & -> & Cx & -> & _).
    f_equal. apply U; [apply in_elt | exact Cx].
  - rewrite (proj1 (firstPath_None cond rm) F e I) in C. discriminate.
Qed.

Lemma literal_no_star (p : string) :
  literalPath p = true -> includes "*" p = false.
Proof.
  induction p as [|c p IH]; simpl; [reflexivity|].
  intro A. apply andb_true_iff in A as [A1 A2]. rewrite (IH A2), orb_false_r.
  unfold literalChar in A1. apply andb_true_iff in A1 as [A1 _].
  destruct (Ascii.eqb_spec c "*") as [->|N]; [discriminate A1 | reflexivity].
Qed.

Lemma stripTrailingSlash_cases (p : string) :
  p = stripTrailingSlash p \/ p = (stripTrailingSlash p ++ "/")%string.
Proof.
  induction p as [|c p IH]; [now left|].
  destruct p as [|d p].
  - simpl. destruct (Ascii.eqb_spec c "/") as [->|N]; [now right | now left].
  - change (stripTrailingSlash (String c (String d p)))
      with (String c (stripTrailingSlash (String d p))).
    destruct IH as [IH|IH]; [left | right].
    + f_equal. exact IH.
    + change (String c (String d p)
              = String c (stripTrailingSlash (String d p) ++ "/")%string).
      f_equal. exact IH.
Qed.

(** What [add] pushes for a literal path. *)
Lemma compile_literal (m p : string) (h : Handler) :
  literalPath p = true ->
  compile (mkRoute m p h)
  = Some (mkCompiled (mkRoute m p h)
            (RSeq (RBol :: chars (stripTrailingSlash p)
                   ++ [ROpt (RChar "/"); REol]))
            false).
Proof.
  intro L. unfold compile. simpl path.
  rewrite (variantB_literal _ L), (literal_no_star _ L). reflexivity.
Qed.

Lemma literalPath_app (a b : string) :
  literalPath a = true -> literalPath b = true ->
  literalPath (a ++ b) = true.
Proof.
  unfold literalPath. induction a as [|c a IH]; simpl; [auto|].
  intros A B. apply andb_true_iff in A as [A1 A2].
  now rewrite A1, (IH A2 B).
Qed.

Lemma in_expansion_snoc (rs : list InternalRoute) (new d : InternalRoute) :
  In d (expansion (rs ++ [new])) ->
  In d (expansion rs)
  \/ exists m, In m ROUTABLE_HTTP_METHODS /\ selects m new = true
               /\ d = withMethod new m.
Proof.
  intro I. apply in_expansion in I as (m & r & Hm & Hr & S & ->).
  apply in_app_or in Hr as [Hr|[<-|[]]].
  - left. apply in_expansion. now exists m, r.
  - right. now exists m.
Qed.

(** A url that the pattern of the prefixed path matches is the path given
    only when the app has no prefix, unless the prefix is a lone slash. *)
Lemma prefix_absorbed (pf p : string) :
  startsWith "/" p = true -> pf <> "/" ->
  p = stripTrailingSlash (pf ++ p)
  \/ p = (stripTrailingSlash (pf ++ p) ++ "/")%string ->
  pf = "".
Proof.
  intros S N H.
  assert (Z : String.length pf = 0 -> pf = "")
    by (destruct pf; [reflexivity | discriminate]).
  pose proof (stripTrailingSlash_cases (pf ++ p)) as E.
  remember (stripTrailingSlash (pf ++ p)) as s eqn:Hs. clear Hs.
  assert (LE : String.length pf + String.length p = String.length s
               \/ String.length pf + String.length p = String.length s + 1).
  { destruct E as [E|E]; apply (f_equal String.length) in E;
      rewrite !string_length_app in E; simpl in E; lia. }
  assert (LH : String.length p = String.length s
               \/ String.length p = String.length s + 1).
  { destruct H as [H|H]; apply (f_equal String.length) in H;
      rewrite ?string_length_app in H; simpl in H; lia. }
  destruct E as [E|E]; destruct H as [H|H];
    try (apply Z; apply (f_equal String.length) in E;
         apply (f_equal String.length) in H;
         rewrite ?string_length_app in *; simpl in *; lia);
    try (exfalso; apply (f_equal String.length) in E;
         apply (f_equal String.length) in H;
         rewrite ?string_length_app in *; simpl in *; lia).
  (* [pf ++ p = p ++ "/"]: the prefix is one character, a slash *)
  exfalso. subst s. destruct pf as [|c [|d pf]].
  - apply (f_equal String.length) in E. simpl in E.
    rewrite string_length_app in E. simpl in E. lia.
  - destruct p as [|x p]; [discriminate S|].
    simpl in S. apply Ascii.eqb_eq in S. subst x.
    simpl in E. injection E as E _. apply N. now subst c.
  - apply (f_equal String.length) in E.
    simpl in E. rewrite !string_length_app in E. simpl in E. lia.
Qed.

(** A literal path registered with [route] is what [lookup] resolves it
    to afterwards: if [route] returns for a spec with a literal path, on a
    router none of whose declared paths is empty and whose app has no
    prefix or a literal prefix other than "/", a [lookup] of that path and
    method returns the path. *)
Theorem route_then_lookup (this this1 : HttpRouterWithElysia)
    (m p : string) (h : Handler) :
  literalPath p = true ->
  literalPath (config_prefix (_app this)) = true ->
  config_prefix (_app this) <> "/" ->
  noEmptyPath this ->
  route (mkSpec (Some h) (Some m) (Some p) None) this = (Return tt, this1) ->
  exists this2, lookup p m this1 = (Return (TheHandler, m, p), this2).
Proof.
  intros Lp Lpf Npf [NE1 NE2] R.
  destruct (route_Return_app _ _ R) as (V & _ & _).
  unfold staticViolation, methodOf in V. simpl in V.
  apply orb_false_iff in V as [V Sp]. apply orb_false_iff in V as [_ V].
  apply negb_false_iff in V. apply negb_false_iff in Sp.
  pose proof (isRoutable_In _ V) as Im.
  revert R. unfold route, bind.
  destruct (getRoutes this) as [[L|e0] thisR] eqn:G; [|discriminate].
  destruct (getRoutes_Return _ G) as (es & C & -> & _).
  cbn [spec_handler spec_method spec_path spec_pathPrefix _routeMatcher].
  rewrite (isRoutable_truthy _ V), V, Sp. change (negb true) with false.
  cbv iota. cbv beta. cbn [_routeMatcher].
  destruct (find m p (_routeMatcher this ++ es)) as [q|] eqn:F.
  { (* a declared path matched: it is not empty, so [route] raised *)
    apply find_sound in F as (e & Ie & _ & ->).
    assert (N : path (Matcher.route e) <> "").
    { apply in_app_or in Ie as [Ie|Ie]; [now apply NE1|].
      destruct (@refreshed_entry _ es e C Ie) as (r & Hr & _ & _ & _ & ->).
      now apply NE2. }
    simpl. destruct (path (Matcher.route e)); [contradiction | discriminate]. }
  simpl. unfold registerInApp. intro R; injection R as <-.
  pose proof (find_None_hits _ _ _ F) as NoHit.
  (* the refresh of the lookup *)
  set (pf := config_prefix (_app this)) in *.
  set (new := mkRoute m (pf ++ p) h).
  assert (Lq : literalPath (pf ++ p) = true) by now apply literalPath_app.
  assert (T : exists es2,
             compileAll (expansion (routes (_app this) ++ [new])) = Some es2).
  { apply compileAll_total. intros d Id.
    apply in_expansion_snoc in Id as [Id|(m' & _ & _ & ->)].
    - destruct (compileAll_In _ C) as [I1 _].
      destruct (I1 d Id) as (e & Ce & _). now exists e.
    - eexists. exact (@compile_literal m' (pf ++ p) h Lq). }
  destruct T as [es2 C2].
  unfold lookup, bind.
  rewrite (@getRoutes_ok
             (mkRouter (app_route m p h (_app this)) (_routeMatcher this ++ es))
             es2 C2).
  cbn [_routeMatcher].
  rewrite (@routable_normalize m Im).
  assert (P : forall q, find m p ((_routeMatcher this ++ es) ++ es2) = Some q ->
                        q = p).
  { intros q Fq. apply find_sound in Fq as (e & Ie & He & ->).
    apply in_app_or in Ie as [Ie|Ie].
    - rewrite (NoHit e Ie) in He. discriminate.
    - destruct (compileAll_In _ C2) as [_ I2].
      destruct (I2 e Ie) as (d & Id & Cd).
      apply in_expansion_snoc in Id as [Id|(m' & _ & _ & ->)].
      + destruct (compileAll_In _ C) as [I1 _].
        destruct (I1 d Id) as (e' & Ce' & Ie').
        assert (e' = e) by congruence. subst e'.
        rewrite (NoHit e) in He; [discriminate|].
        apply in_or_app. now right.
      + change (withMethod new m') with (mkRoute m' (pf ++ p) h) in Cd.
        rewrite (@compile_literal m' (pf ++ p) h Lq) in Cd.
        injection Cd as <-. unfold hits in He. cbn [regex Matcher.route path] in *.
        apply andb_true_iff in He as [_ He].
        apply test_literal_B in He.
        rewrite (@prefix_absorbed pf p Sp Npf He). reflexivity. }
  destruct (find m p ((_routeMatcher this ++ es) ++ es2)) as [q|].
  - rewrite (P q eq_refl). eexists. reflexivity.
  - eexists. reflexivity.
Qed.

(** [route_then_lookup] for GET "/a" on a router over [usersApp]. *)
Lemma route_then_lookup_witness :
  exists this2,
    lookup "/a" "GET" (snd (route getA (new usersApp)))
    = (Return (TheHandler, "GET", "/a"), this2).
Proof.
  apply (@route_then_lookup (new usersApp) (snd (route getA (new usersApp)))
           "GET" "/a" (HFunction 4)).
  - vm_compute. reflexivity.
  - vm_compute. reflexivity.
  - discriminate.
  - split.
    + intros e [].
    + intros r [<-|[]]. discriminate.
  - vm_compute. reflexivity.
Defined.

(** With the prefix "/api" the route registered is "/api/a": a lookup of
    "/a" finds nothing and returns "/a" as the path it was given, and a
    lookup of "/api/a" resolves to the route. *)
Lemma route_then_lookup_prefixed :
  routes (_app (snd (route getA (new apiApp))))
  = [mkRoute "GET" "/api/a" (HFunction 4)]
  /\ fst (lookup "/a" "GET" (snd (route getA (new apiApp))))
     = Return (TheHandler, "GET", "/a")
  /\ find "GET" "/a" (_routeMatcher (snd (lookup "/a" "GET"
                                            (snd (route getA (new apiApp))))))
     = None
  /\ find "GET" "/api/a"
       (_routeMatcher (snd (lookup "/a" "GET" (snd (route getA (new apiApp))))))
     = Some "/api/a".
Proof. repeat split; vm_compute; reflexivity. Qed.

End RoundTrip.

(* ===================================================================== *)
(** * The shipped build: registered paths and repeated prefixes *)
(* ===================================================================== *)

Module ShippedBuild.

Import VariantB VariantB.Matcher VariantB.Router RouterFacts Refresh
  Registration Precedence LookupResolution.

#[local] Arguments String.eqb : simpl never.

(** An app that already has the wildcard route of the prefix "/a/". *)
Definition starApp : Elysia := mkApp [mkRoute "GET" "/a/*" (HFunction 2)].

Lemma refreshed_declaration (rs : list InternalRoute) (es : RouteMatcher)
    (r : InternalRoute) (m : string) :
  compileAll (expansion rs) = Some es ->
  In r rs -> (method r = m \/ method r = "ALL") ->
  In m ROUTABLE_HTTP_METHODS ->
  exists e, In e es /\ Matcher.route e = withMethod r m.
Proof.
  intros C Hr S Hm. destruct (compileAll_In _ C) as [I1 _].
  destruct (I1 (withMethod r m)) as (e & Ce & Ie).
  - apply in_expansion. exists m, r. repeat split; try assumption.
    unfold selects. apply orb_true_iff.
    destruct S as [S|S]; rewrite S; [left | right]; apply String.eqb_refl.
  - exists e. split; [exact Ie|]. now destruct (compile_route _ Ce).
Qed.

(** In the shipped build a [lookup] of the declared path of an app route,
    under a routable method the route is declared for (its own, or any if
    it is declared for "ALL"), returns that path, whatever else is
    registered and whatever the path contains. *)
Theorem dist_lookup_registered (this this' : HttpRouterWithElysia)
    (r : InternalRoute) (m : string)
    (res : PublicHttpAction * string * string) :
  In r (routes (_app this)) ->
  (method r = m \/ method r = "ALL") ->
  In m ROUTABLE_HTTP_METHODS ->
  Dist.Router.lookup (path r) m this = (Return res, this') ->
  res = (TheHandler, m, path r).
Proof.
  intros Hr S Hm. unfold Dist.Router.lookup, Dist.Router.getRoutes, bind.
  destruct (getRoutes this) as [[L|e0] this1] eqn:G; [|discriminate].
  destruct (getRoutes_Return _ G) as (es & C & -> & _).
  destruct (refreshed_declaration _ r C Hr S Hm) as (e & Ie & Re).
  cbn [_routeMatcher].
  rewrite (@dist_find_literal (_routeMatcher this ++ es) m (path r) e).
  - intro E; injection E as <- _. now rewrite (@routable_normalize m Hm).
  - apply in_or_app. now right.
  - now rewrite Re.
  - now rewrite Re.
Qed.

(** [dist_lookup_registered] for "/users/42" registered after
    "/users/:id". *)
Lemma dist_lookup_registered_witness :
  fst (Dist.Router.lookup "/users/42" "GET"
         (new (mkApp [usersId; usersStar; users42])))
  = Return (TheHandler, "GET", "/users/42").
Proof.
  rewrite (@dist_lookup_registered
             (new (mkApp [usersId; usersStar; users42]))
             (snd (Dist.Router.lookup "/users/42" "GET"
                     (new (mkApp [usersId; usersStar; users42]))))
             users42 "GET"
             (TheHandler, "GET", "/users/42")); try reflexivity.
  - simpl. right. right. left. reflexivity.
  - now left.
  - simpl. now left.
Defined.

(** In the shipped build [route] accepts a prefix again: when the app's
    list already has, for the method, a route whose path is the prefix
    followed by a star, and the refresh returns, [route] raises nothing and
    has the app register the prefix once more: one route at the end of its
    list, whose path is the app's own prefix, the prefix given and a
    star. *)
Theorem dist_route_same_prefix (this this1 : HttpRouterWithElysia)
    (L : list ConvexRoute) (r : InternalRoute) (m pre : string) (h : Handler) :
  getRoutes this = (Return L, this1) ->
  In r (routes (_app this)) ->
  path r = (pre ++ "*")%string ->
  (method r = m \/ method r = "ALL") ->
  isRoutable m = true ->
  startsWith "/" pre = true ->
  endsWith "/" pre = true ->
  Dist.Router.route (mkSpec (Some h) (Some m) None (Some pre)) this
  = (Return tt,
     mkRouter
       (mkElysia (config_prefix (_app this))
          (routes (_app this)
           ++ [mkRoute m (config_prefix (_app this) ++ pre ++ "*") h]))
       (_routeMatcher this1)).
Proof.
  intros G Hr P S V S1 S2.
  pose proof (isRoutable_In _ V) as Hm.
  unfold Dist.Router.route, Dist.Router.getRoutes, bind. rewrite G.
  destruct (getRoutes_Return _ G) as (es & C & -> & _).
  destruct (refreshed_declaration _ r C Hr S Hm) as (e & Ie & Re).
  cbn [spec_handler spec_method spec_path spec_pathPrefix _routeMatcher _app].
  rewrite (isRoutable_truthy _ V), V, S1, S2.
  change (negb true) with false. cbv iota beta. cbn [_routeMatcher].
  rewrite (@dist_find_literal (_routeMatcher this ++ es) m (pre ++ "*") e).
  - rewrite String.eqb_refl, andb_false_r. reflexivity.
  - apply in_or_app. now right.
  - now rewrite Re.
  - now rewrite Re.
Qed.

(** [dist_route_same_prefix] on [starApp]: the second "/a/*" is
    registered. *)
Lemma dist_route_same_prefix_witness :
  Dist.Router.route prefixSpec (new starApp)
  = (Return tt,
     mkRouter
       (mkElysia (config_prefix (_app (new starApp)))
          (routes (_app (new starApp))
           ++ [mkRoute "GET"
                 (config_prefix (_app (new starApp)) ++ "/a/" ++ "*")
                 (HFunction 9)]))
       (_routeMatcher (snd (getRoutes (new starApp))))).
Proof.
  apply (@dist_route_same_prefix (new starApp) (snd (getRoutes (new starApp)))
           [("/a/*", "GET", Fn 2)]
           (mkRoute "GET" "/a/*" (HFunction 2)) "GET" "/a/" (HFunction 9)).
  - vm_compute. reflexivity.
  - now left.
  - reflexivity.
  - now left.
  - vm_compute. reflexivity.
  - reflexivity.
  - reflexivity.
Defined.

(** On [starApp] the two builds differ: the [route] of the source looks
    the prefix itself up, finds the wildcard route and raises; on
    [prefixApp], where "/a/" is declared too, it registers as the shipped
    build does. *)
Lemma source_route_same_prefix :
  fst (route prefixSpec (new starApp))
  = Throw (Error "Path '/a/' for method GET already in use, found /a/*")
  /\ fst (route prefixSpec (new prefixApp)) = Return tt
  /\ fst (Dist.Router.route prefixSpec (new prefixApp)) = Return tt.
Proof. repeat split; vm_compute; reflexivity. Qed.

End ShippedBuild.

(* ===================================================================== *)
(** * Variant A: the first match wins *)
(* ===================================================================== *)

Module FirstMatch.

Import VariantB.Router RouterFacts Precedence LookupResolution.

#[local] Arguments String.eqb : simpl never.

(** The test of the loop of [VariantA.find]. *)
Definition hitsA (m url : string) (e : VariantA.CompiledRoute) : bool :=
  String.eqb (method (VariantA.route e)) m && test (VariantA.regex e) url.

(** The declarations of a table of Variant A. *)
Definition declared (rm : VariantA.RouteMatcher) : list InternalRoute :=
  map VariantA.route rm.

Lemma addA_run (d : InternalRoute) (rm : VariantA.RouteMatcher) :
  VariantA.add d rm =
  match RegExp (VariantA.regexStr (path d)) with
  | Some rx => (Return tt, rm ++ [VariantA.mkCompiled d rx])
  | None => (Throw (compileError (VariantA.regexStr (path d))), rm)
  end.
Proof. reflexivity. Qed.

(** Adding declarations one after the other, when [add] returns each
    time, appends their entries in order. *)
Lemma addAllA_Return (ds : list InternalRoute)
    (rm rm' : VariantA.RouteMatcher) (u : unit) :
  forEach ds VariantA.add rm = (Return u, rm') ->
  exists es, rm' = rm ++ es /\ declared es = ds.
Proof.
  revert rm; induction ds as [|d ds IH]; intro rm; simpl.
  - intro E; injection E as _ <-. exists []. now rewrite app_nil_r.
  - unfold bind. rewrite addA_run.
    destruct (RegExp (VariantA.regexStr (path d))) as [rx|]; [|discriminate].
    intro E. destruct (IH _ E) as (es & -> & D).
    exists (VariantA.mkCompiled d rx :: es). rewrite <- app_assoc.
    split; [reflexivity|]. unfold declared in *. simpl. now rewrite D.
Qed.

Lemma innerA (m : string) (rs : list InternalRoute) (app : Elysia)
    (rm : VariantA.RouteMatcher) :
  forEach rs (fun r =>
      if String.eqb (method r) m || String.eqb (method r) "ALL"
      then VariantARouter.onMatcher (VariantA.add (withMethod r m))
      else ret tt) (VariantARouter.mkRouter app rm)
  = VariantARouter.onMatcher (forEach (declarationsFor m rs) VariantA.add)
      (VariantARouter.mkRouter app rm).
Proof.
  revert rm; induction rs as [|r rs IH]; intro rm.
  - reflexivity.
  - unfold declarationsFor. simpl filter. unfold selects at 1.
    simpl forEach at 1.
    destruct (String.eqb (method r) m || String.eqb (method r) "ALL").
    + simpl map. simpl forEach.
      unfold bind, VariantARouter.onMatcher at 1 3. simpl.
      destruct (VariantA.add (withMethod r m) rm) as [[u|e] rm1].
      * rewrite IH. reflexivity.
      * reflexivity.
    + unfold bind, ret. rewrite IH. reflexivity.
Qed.

Lemma outerA (ms : list string) (app : Elysia) (rm : VariantA.RouteMatcher) :
  forEach ms (fun m this =>
      forEach (routes (VariantARouter._app this)) (fun r =>
        if String.eqb (method r) m || String.eqb (method r) "ALL"
        then VariantARouter.onMatcher (VariantA.add (withMethod r m))
        else ret tt) this) (VariantARouter.mkRouter app rm)
  = VariantARouter.onMatcher
      (forEach (flat_map (fun m => declarationsFor m (routes app)) ms)
               VariantA.add)
      (VariantARouter.mkRouter app rm).
Proof.
  revert rm; induction ms as [|m ms IH]; intro rm.
  - reflexivity.
  - simpl forEach at 1. unfold bind at 1. simpl VariantARouter._app.
    rewrite innerA. simpl flat_map.
    unfold VariantARouter.onMatcher. simpl. rewrite forEach_app.
    destruct (forEach (declarationsFor m (routes app)) VariantA.add rm)
      as [[u|e] rm1].
    + rewrite IH. reflexivity.
    + reflexivity.
Qed.

Lemma getRoutesA_Return (this this' : VariantARouter.HttpRouterWithElysia)
    (L : list ConvexRoute) :
  VariantARouter.getRoutes this = (Return L, this') ->
  exists es,
    this' = VariantARouter.mkRouter (VariantARouter._app this)
              (VariantARouter._routeMatcher this ++ es)
    /\ declared es = expansion (routes (VariantARouter._app this))
    /\ L = VariantA.toConvexRoutes (VariantARouter._routeMatcher this ++ es).
Proof.
  destruct this as [app rm]. unfold VariantARouter.getRoutes, bind.
  rewrite outerA. unfold VariantARouter.onMatcher.
  cbn [VariantARouter._app VariantARouter._routeMatcher].
  fold (expansion (routes app)).
  destruct (forEach (expansion (routes app)) VariantA.add rm)
    as [[u|e] rm1] eqn:F; [|discriminate].
  intro E; injection E as <- <-.
  destruct (addAllA_Return _ _ F) as (es & -> & D). now exists es.
Qed.

(** What the loop of [VariantA.find] returns. *)
Lemma findA_spec (m url : string) (rm : VariantA.RouteMatcher) :
  match VariantA.find m url rm with
  | Some p =>
      exists a e b,
        rm = a ++ e :: b /\ hitsA m url e = true
        /\ p = path (VariantA.route e)
        /\ forall x, In x a -> hitsA m url x = false
  | None => forall e, In e rm -> hitsA m url e = false
  end.
Proof.
  induction rm as [|x rm IH]; simpl.
  - intros e [].
  - fold (hitsA m url x). destruct (hitsA m url x) eqn:H.
    + exists [], x, rm. repeat split; [exact H | intros y []].
    + destruct (VariantA.find m url rm) as [p|].
      * destruct IH as (a & e & b & -> & He & -> & Na).
        exists (x :: a), e, b. repeat split; try assumption.
        intros y [<-|I]; [exact H | now apply Na].
      * intros e [<-|I]; [exact H | now apply IH].
Qed.

(** In Variant A [lookup] resolves a request to the first entry of the
    table, older entries first and then the declarations of its own refresh
    method by method, that has the method and a pattern that matches; a
    wildcard has no lower rank than any other route. With no such entry the
    path given is returned. *)
Theorem variantA_lookup_first_match
    (this this' : VariantARouter.HttpRouterWithElysia) (p m : string)
    (res : PublicHttpAction * string * string) :
  VariantARouter.lookup p m this = (Return res, this') ->
  exists added,
    VariantARouter._routeMatcher this'
      = VariantARouter._routeMatcher this ++ added
    /\ declared added = expansion (routes (VariantARouter._app this))
    /\ fst res = (TheHandler, normalizeMethod m)
    /\ ((snd res = p
         /\ forall e, In e (VariantARouter._routeMatcher this') ->
                      hitsA m p e = false)
        \/ exists a e b,
             VariantARouter._routeMatcher this' = a ++ e :: b
             /\ hitsA m p e = true
             /\ snd res = path (VariantA.route e)
             /\ forall x, In x a -> hitsA m p x = false).
Proof.
  unfold VariantARouter.lookup, bind.
  destruct (VariantARouter.getRoutes this) as [[L|e0] this1] eqn:G;
    [|discriminate].
  intro E; injection E as <- <-.
  destruct (getRoutesA_Return _ G) as (es & -> & D & _).
  exists es. split; [reflexivity|]. split; [exact D|].
  split; [reflexivity|]. cbn [VariantARouter._routeMatcher snd].
  pose proof (findA_spec m p (VariantARouter._routeMatcher this ++ es)) as S.
  destruct (VariantA.find m p (VariantARouter._routeMatcher this ++ es)).
  - right. exact S.
  - left. split; [reflexivity | exact S].
Qed.

(** [variantA_lookup_first_match] with the wildcard route registered
    first: it is the one "/users/7" resolves to. *)
Lemma variantA_lookup_first_match_witness :
  exists added,
    VariantARouter._routeMatcher
      (snd (VariantARouter.lookup "/users/7" "GET"
              (VariantARouter.new (mkApp [usersStar; usersId]))))
      = VariantARouter._routeMatcher
          (VariantARouter.new (mkApp [usersStar; usersId])) ++ added
    /\ declared added
       = expansion (routes (VariantARouter._app
                              (VariantARouter.new (mkApp [usersStar; usersId]))))
    /\ fst (TheHandler, "GET", "/users/*") = (TheHandler, normalizeMethod "GET")
    /\ ((snd (TheHandler, "GET", "/users/*") = "/users/7"
         /\ forall e,
              In e (VariantARouter._routeMatcher
                      (snd (VariantARouter.lookup "/users/7" "GET"
                              (VariantARouter.new (mkApp [usersStar; usersId]))))) ->
              hitsA "GET" "/users/7" e = false)
        \/ exists a e b,
             VariantARouter._routeMatcher
               (snd (VariantARouter.lookup "/users/7" "GET"
                       (VariantARouter.new (mkApp [usersStar; usersId]))))
             = a ++ e :: b
             /\ hitsA "GET" "/users/7" e = true
             /\ snd (TheHandler, "GET", "/users/*") = path (VariantA.route e)
             /\ forall x, In x a -> hitsA "GET" "/users/7" x = false).
Proof.
  apply (@variantA_lookup_first_match
           (VariantARouter.new (mkApp [usersStar; usersId]))
           (snd (VariantARouter.lookup "/users/7" "GET"
                   (VariantARouter.new (mkApp [usersStar; usersId]))))
           "/users/7" "GET" (TheHandler, "GET", "/users/*")).
  vm_compute. reflexivity.
Defined.

(** The two variants on the routes "/users/*" then "/users/:id": Variant A
    resolves "/users/7" to the wildcard route, registered first; the
    precedence-aware router to the parameter route. *)
Lemma variants_differ_on_order :
  fst (VariantARouter.lookup "/users/7" "GET"
         (VariantARouter.new (mkApp [usersStar; usersId])))
    = Return (TheHandler, "GET", "/users/*")
  /\ fst (lookup "/users/7" "GET" (new (mkApp [usersStar; usersId])))
    = Return (TheHandler, "GET", "/users/:id").
Proof. split; vm_compute; reflexivity. Qed.

End FirstMatch.

(* ===================================================================== *)
(** * What a wildcard and a parameter match *)
(* ===================================================================== *)

Module PatternMeaning.

Import RegExpFacts LiteralPaths RoundTrip.

#[local] Arguments Ascii.eqb : simpl never.

(** No character of the text is a line terminator. *)
Definition noLineTerminator (s : string) : bool :=
  allChars (fun d => negb (isLineTerminator d)) s.

(** The test of the set [[^/]]. *)
Definition notSlash (d : ascii) : bool :=
  xorb true (existsb (Ascii.eqb d) ["/"%char]).

(** Whether a position reached after the text [a] is still the start. *)
Definition startAfter (b : bool) (a : string) : bool :=
  match a with EmptyString => b | String _ _ => false end.

Lemma starOf_succ (m : (pos -> bool) -> pos -> bool) (k : pos -> bool)
    (n : nat) (p : pos) :
  starOf m k (S n) p
  = k p || m (fun p' =>
               (String.length (rest p') <? String.length (rest p))%nat
               && starOf m k n p') p.
Proof. reflexivity. Qed.

(** Repeating a one-character test consumes a run of characters that pass
    it. *)
Lemma star_chars (ok : ascii -> bool) (k : pos -> bool) (s : string) :
  forall n b, String.length s <= n ->
    starOf (oneChar ok) k n (b, s) = true <->
    exists a r, s = (a ++ r)%string /\ allChars ok a = true
                /\ k (startAfter b a, r) = true.
Proof.
  induction s as [|c s IH]; intros n b Hn.
  - assert (E : starOf (oneChar ok) k n (b, "") = k (b, "")).
    { destruct n; simpl; unfold oneChar; simpl; now rewrite orb_false_r. }
    rewrite E. split.
    + intro K. now exists "", "".
    + intros (a & r & Ea & _ & K). destruct a; [|discriminate].
      simpl in Ea. now subst r.
  - destruct n as [|n]; [simpl in Hn; lia|].
    rewrite starOf_succ. unfold oneChar at 1. cbn [rest snd].
    assert (L : (String.length s <? String.length (String c s))%nat = true).
    { apply Nat.ltb_lt. simpl. lia. }
    rewrite L. cbn [andb]. rewrite orb_true_iff, andb_true_iff.
    rewrite (IH n false) by (simpl in Hn; lia). split.
    + intros [K|(Oc & a & r & -> & Oa & K)].
      * now exists "", (String c s).
      * exists (String c a), r. simpl. rewrite Oc, Oa.
        repeat split. now destruct a.
    + intros (a & r & Ea & Oa & K). destruct a as [|d a].
      * left. simpl in Ea. now subst r.
      * right. simpl in Ea. injection Ea as <- ->.
        simpl in Oa. apply andb_true_iff in Oa as [Oc Oa].
        split; [exact Oc|]. exists a, r. repeat split; try assumption.
        now destruct a.
Qed.

Lemma allChars_app (ok : ascii -> bool) (a b : string) :
  allChars ok (a ++ b) = allChars ok a && allChars ok b.
Proof.
  induction a as [|c a IH]; simpl; [reflexivity|].
  now rewrite IH, andb_assoc.
Qed.

Lemma string_app_assoc (a b c : string) :
  ((a ++ b) ++ c = a ++ (b ++ c))%string.
Proof. induction a as [|x a IH]; simpl; [reflexivity | now rewrite IH]. Qed.

Lemma replaceStars_app (a b : string) :
  replaceStars (a ++ b) = (replaceStars a ++ replaceStars b)%string.
Proof.
  induction a as [|c a IH]; simpl; [reflexivity|].
  destruct (Ascii.eqb c "*"); simpl; now rewrite IH.
Qed.

Lemma replaceParams_app (a b : string) :
  allChars (fun c => negb (Ascii.eqb c ":")) a = true ->
  replaceParams false (a ++ b) = (a ++ replaceParams false b)%string.
Proof.
  induction a as [|c a IH]; simpl; [reflexivity|].
  intro A. apply andb_true_iff in A as [A1 A2].
  apply negb_true_iff in A1. rewrite A1. simpl. now rewrite (IH A2).
Qed.

Lemma stripTrailingSlash_app (a b : string) :
  b <> "" ->
  stripTrailingSlash (a ++ b) = (a ++ stripTrailingSlash b)%string.
Proof.
  intro N. induction a as [|c a IH]; [reflexivity|].
  simpl String.append.
  destruct (a ++ b)%string as [|d s] eqn:E.
  - destruct a; [simpl in E; contradiction | discriminate].
  - change (stripTrailingSlash (String c (String d s)))
      with (String c (stripTrailingSlash (String d s))).
    now rewrite IH.
Qed.

(** The pattern of a literal prefix followed by a star. *)
Lemma wildcard_pattern (pre : string) :
  literalPath pre = true ->
  RegExp (VariantB.Matcher.regexStr (pre ++ "*")) =
  Some (RSeq (RBol :: chars pre ++ [RStar RAny; ROpt (RChar "/"); REol])).
Proof.
  intro L. unfold RegExp, VariantB.Matcher.regexStr.
  rewrite replaceStars_app, (replaceStars_literal _ (literal_not_special _ L)).
  change (replaceStars "*") with ".*".
  rewrite (replaceParams_app pre _ (literal_not_colon _ L)).
  change (replaceParams false ".*") with ".*".
  rewrite stripTrailingSlash_app by discriminate.
  change (stripTrailingSlash ".*") with ".*".
  change ("^" ++ (pre ++ ".*") ++ "/?$")%string
    with (String "^" ((pre ++ ".*") ++ "/?$")).
  simpl parseFrom. change (step "^" start) with (Some (push RBol start)).
  cbv iota. rewrite string_app_assoc, parseFrom_app.
  rewrite (parseFrom_literal pre (push RBol start)
             (literal_not_special _ L) eq_refl).
  cbn. unfold finish; simpl.
  rewrite charsRev_spec. simpl.
  rewrite rev_app_distr, rev_involutive. simpl.
  rewrite <- !app_assoc. simpl.
  rewrite PatternShape.collect_noBar; [reflexivity|].
  now apply PatternShape.hasBar_bol_chars.
Qed.

(** After the prefix, dot-star and the optional slash take whatever is
    left, as long as it has no line terminator. *)
Lemma rest_of_wildcard (b : bool) (s : string) :
  matchSeq [RStar RAny; ROpt (RChar "/"); REol] (fun _ => true) (b, s) = true
  <-> noLineTerminator s = true.
Proof.
  change (matchSeq [RStar RAny; ROpt (RChar "/"); REol] (fun _ => true) (b, s))
    with (starOf (oneChar (fun d => negb (isLineTerminator d))) slashThenEnd
            (String.length s) (b, s)).
  rewrite star_chars by lia. unfold noLineTerminator. split.
  - intros (a & r & -> & A & K). rewrite allChars_app, A.
    apply slashThenEnd_spec in K. unfold rest in K; simpl in K.
    destruct K as [->| ->]; reflexivity.
  - intro A. exists s, "". rewrite string_app_nil_r.
    split; [reflexivity|]. split; [exact A|].
    apply slashThenEnd_spec. now left.
Qed.

(** A wildcard route matches every url that begins with what stands before
    the star: in the precedence-aware variant the pattern of a literal
    prefix followed by a star matches a url exactly when the url is the
    prefix followed by any text without a line terminator. *)
Theorem wildcard_matches_prefix (pre : string) :
  literalPath pre = true ->
  exists r,
    RegExp (VariantB.Matcher.regexStr (pre ++ "*")) = Some r
    /\ forall url,
         test r url = true <->
         exists suffix,
           url = (pre ++ suffix)%string /\ noLineTerminator suffix = true.
Proof.
  intro L. eexists. split; [exact (wildcard_pattern _ L)|].
  intro url. rewrite test_bol, matchSeq_app, matchSeq_chars.
  destruct pre as [|c pre].
  - rewrite rest_of_wildcard. split.
    + intro A. now exists url.
    + intros (sfx & -> & A). exact A.
  - destruct (afterPrefix (String c pre) url) as [s'|] eqn:A.
    + apply afterPrefix_Some in A. subst url. rewrite rest_of_wildcard. split.
      * intro N. now exists s'.
      * intros (sfx & E & N).
        now rewrite (string_app_inv_head _ _ _ E).
    + split; [discriminate|]. intros (sfx & -> & _).
      assert (A' : afterPrefix (String c pre) (String c pre ++ sfx) = Some sfx)
        by now apply afterPrefix_Some.
      congruence.
Qed.

(** [wildcard_matches_prefix] on the prefix "/files/". *)
Lemma wildcard_matches_prefix_witness :
  exists r,
    RegExp (VariantB.Matcher.regexStr ("/files/" ++ "*")) = Some r
    /\ forall url,
         test r url = true <->
         exists suffix,
           url = ("/files/" ++ suffix)%string
           /\ noLineTerminator suffix = true.
Proof.
  apply (wildcard_matches_prefix "/files/"). vm_compute. reflexivity.
Defined.

Lemma notSlash_includes (s : string) :
  allChars notSlash s = negb (includes "/" s).
Proof.
  induction s as [|c s IH]; simpl; [reflexivity|].
  rewrite IH. unfold notSlash. simpl. rewrite orb_false_r.
  now destruct (Ascii.eqb c "/"), (includes "/" s).
Qed.

(** The pattern of a literal prefix followed by a parameter. *)
Lemma param_pattern (pre name : string) :
  literalPath pre = true -> name <> "" -> allChars isWordChar name = true ->
  RegExp (VariantB.Matcher.regexStr (pre ++ String ":" name)) =
  Some (RSeq (RBol :: chars pre
              ++ [RSeq [RPlus (RSet true ["/"%char])]; ROpt (RChar "/"); REol])).
Proof.
  intros L N W. unfold RegExp, VariantB.Matcher.regexStr.
  rewrite replaceStars_app, (replaceStars_literal _ (literal_not_special _ L)).
  assert (E1 : replaceStars (String ":" name) = String ":" name).
  { simpl. change (Ascii.eqb ":" "*") with false. cbv iota. f_equal.
    rewrite <- (string_app_nil_r name) at 1.
    rewrite (Compilable.replaceStars_word name "" W).
    apply string_app_nil_r. }
  rewrite E1, (replaceParams_app pre _ (literal_not_colon _ L)).
  assert (E2 : replaceParams false (String ":" name) = paramGroup).
  { rewrite Compilable.replaceParams_colon.
    - rewrite <- (string_app_nil_r name).
      rewrite (Compilable.replaceParams_name name "" W).
      apply string_app_nil_r.
    - destruct name as [|c name]; [contradiction|].
      simpl in W. now apply andb_true_iff in W as [W _]. }
  rewrite E2, stripTrailingSlash_app by discriminate.
  change (stripTrailingSlash paramGroup) with paramGroup.
  change ("^" ++ (pre ++ paramGroup) ++ "/?$")%string
    with (String "^" ((pre ++ paramGroup) ++ "/?$")).
  simpl parseFrom. change (step "^" start) with (Some (push RBol start)).
  cbv iota. rewrite string_app_assoc, parseFrom_app.
  rewrite (parseFrom_literal pre (push RBol start)
             (literal_not_special _ L) eq_refl).
  cbn. unfold finish; simpl.
  rewrite charsRev_spec. simpl.
  rewrite rev_app_distr, rev_involutive. simpl.
  rewrite <- !app_assoc. simpl.
  rewrite PatternShape.collect_noBar; [reflexivity|].
  now apply PatternShape.hasBar_bol_chars.
Qed.

(** After the prefix, the parameter takes one or more characters other
    than a slash, and one slash may follow. *)
Lemma rest_of_param (b : bool) (s : string) :
  matchSeq [RSeq [RPlus (RSet true ["/"%char])]; ROpt (RChar "/"); REol]
           (fun _ => true) (b, s) = true
  <-> exists seg,
        seg <> "" /\ allChars notSlash seg = true
        /\ (s = seg \/ s = (seg ++ "/")%string).
Proof.
  change (matchSeq [RSeq [RPlus (RSet true ["/"%char])]; ROpt (RChar "/"); REol]
            (fun _ => true) (b, s))
    with (oneChar notSlash
            (fun p1 => starOf (oneChar notSlash) slashThenEnd
                         (String.length (rest p1)) p1) (b, s)).
  unfold oneChar at 1. cbn [rest snd]. destruct s as [|c s].
  - split; [discriminate|].
    intros (seg & N & _ & [E|E]); destruct seg; try contradiction;
      discriminate.
  - rewrite andb_true_iff, star_chars by lia. split.
    + intros (Oc & a & r & -> & A & K). apply slashThenEnd_spec in K.
      unfold rest in K; simpl in K.
      exists (String c a). split; [discriminate|]. simpl. rewrite Oc, A.
      split; [reflexivity|].
      destruct K as [->| ->]; [left | right]; [|reflexivity].
      now rewrite string_app_nil_r.
    + intros (seg & N & A & E). destruct seg as [|d seg]; [contradiction|].
      simpl in A. apply andb_true_iff in A as [Od A].
      destruct E as [E|E]; simpl in E; injection E as <- ->.
      * split; [exact Od|]. exists seg, "". rewrite string_app_nil_r.
        split; [reflexivity|]. split; [exact A|].
        apply slashThenEnd_spec. now left.
      * split; [exact Od|]. exists seg, "/".
        split; [reflexivity|]. split; [exact A|].
        apply slashThenEnd_spec. now right.
Qed.

(** A parameter matches exactly one segment that is not empty: in the
    precedence-aware variant the pattern of a literal prefix followed by a
    parameter matches a url exactly when the url is the prefix, then one or
    more characters none of which is a slash, then at most one slash. *)
Theorem param_matches_segment (pre name : string) :
  literalPath pre = true -> name <> "" -> allChars isWordChar name = true ->
  exists r,
    RegExp (VariantB.Matcher.regexStr (pre ++ String ":" name)) = Some r
    /\ forall url,
         test r url = true <->
         exists seg,
           seg <> "" /\ includes "/" seg = false
           /\ (url = (pre ++ seg)%string
               \/ url = (pre ++ seg ++ "/")%string).
Proof.
  intros L N W. eexists. split; [exact (@param_pattern pre name L N W)|].
  intro url. rewrite test_bol, matchSeq_app, matchSeq_chars.
  assert (S : forall s b,
             matchSeq [RSeq [RPlus (RSet true ["/"%char])]; ROpt (RChar "/"); REol]
                      (fun _ => true) (b, s) = true
             <-> exists seg,
                   seg <> "" /\ includes "/" seg = false
                   /\ (s = seg \/ s = (seg ++ "/")%string)).
  { intros s b. rewrite rest_of_param. split;
      intros (seg & Ns & A & E); exists seg; repeat split; try assumption.
    - rewrite notSlash_includes in A. now apply negb_true_iff in A.
    - rewrite notSlash_includes. now apply negb_true_iff. }
  destruct pre as [|c pre].
  - rewrite S. reflexivity.
  - destruct (afterPrefix (String c pre) url) as [s'|] eqn:A.
    + apply afterPrefix_Some in A. subst url. rewrite S. split.
      * intros (seg & Ns & I & [->| ->]); exists seg; repeat split;
          try assumption; [now left | now right].
      * intros (seg & Ns & I & [E|E]); exists seg; repeat split;
          try assumption;
          [left | right]; exact (string_app_inv_head _ _ _ E).
    + split; [discriminate|]. intros (seg & _ & _ & [-> | ->]).
      * assert (A' : afterPrefix (String c pre) (String c pre ++ seg) = Some seg)
          by now apply afterPrefix_Some.
        congruence.
      * assert (A' : afterPrefix (String c pre) (String c pre ++ seg ++ "/")
                     = Some (seg ++ "/")%string)
          by now apply afterPrefix_Some.
        congruence.
Qed.

(** [param_matches_segment] on "/users/:id". *)
Lemma param_matches_segment_witness :
  exists r,
    RegExp (VariantB.Matcher.regexStr ("/users/" ++ String ":" "id")) = Some r
    /\ forall url,
         test r url = true <->
         exists seg,
           seg <> "" /\ includes "/" seg = false
           /\ (url = ("/users/" ++ seg)%string
               \/ url = ("/users/" ++ seg ++ "/")%string).
Proof.
  apply (@param_matches_segment "/users/" "id").
  - vm_compute. reflexivity.
  - discriminate.
  - vm_compute. reflexivity.
Defined.

End PatternMeaning.

(* ===================================================================== *)
(** * The entries [add] pushes for the edge patterns *)
(* ===================================================================== *)

Module EdgePatterns.

Import RegExpFacts PatternShape LiteralPaths Compilable PatternMeaning.

#[local] Arguments Ascii.eqb : simpl never.
#[local] Arguments String.eqb : simpl never.

(** [add] of Variant A, given a route with the path [p], whatever its
    method and handler and whatever the table, returns having pushed one
    entry: the route with the regex [rx]. *)
Definition addsA (p : string) (rx : re) : Prop :=
  forall m h rm,
    VariantA.add (mkRoute m p h) rm
    = (Return tt, rm ++ [VariantA.mkCompiled (mkRoute m p h) rx]).

(** The same for [add] of Variant B, whose entry also has the wildcard
    flag [w]. *)
Definition addsB (p : string) (rx : re) (w : bool) : Prop :=
  forall m h rm,
    VariantB.Matcher.add (mkRoute m p h) rm
    = (Return tt, rm ++ [VariantB.Matcher.mkCompiled (mkRoute m p h) rx w]).

(** One segment of a path: a word, or a parameter with its name. *)
Inductive segment : Type :=
| Lit (w : string)
| Param (name : string).

(** A word or a name: one or more word characters. *)
Definition isWord (w : string) : bool :=
  match w with
  | EmptyString => false
  | String _ _ => allChars isWordChar w
  end.

Definition wellFormed (sg : segment) : bool :=
  match sg with
  | Lit w => isWord w
  | Param name => isWord name
  end.

(** The path with the given segments, each after a slash. *)
Fixpoint pathOf (sgs : list segment) : string :=
  match sgs with
  | [] => EmptyString
  | Lit w :: sgs' => String "/" (w ++ pathOf sgs')
  | Param name :: sgs' => String "/" (String ":" (name ++ pathOf sgs'))
  end.

(** The same path with each parameter replaced by [paramGroup]. *)
Fixpoint patternOf (sgs : list segment) : string :=
  match sgs with
  | [] => EmptyString
  | Lit w :: sgs' => String "/" (w ++ patternOf sgs')
  | Param _ :: sgs' => String "/" (paramGroup ++ patternOf sgs')
  end.

(** A path or a url, with a slash at its end or without. *)
Definition withSlash (slash : bool) (s : string) : string :=
  if slash then (s ++ "/")%string else s.

Definition slashTerm (slash : bool) : list re :=
  if slash then [RChar "/"] else [].

(** The group a parameter becomes. *)
Definition paramTerm : re := RSeq [RPlus (RSet true ["/"%char])].

(** The pattern terms of a list of segments. *)
Fixpoint termsOf (sgs : list segment) : list re :=
  match sgs with
  | [] => []
  | Lit w :: sgs' => RChar "/" :: chars w ++ termsOf sgs'
  | Param _ :: sgs' => RChar "/" :: paramTerm :: termsOf sgs'
  end.

(** What a parameter stands for in a url: one or more characters, none of
    them a slash. *)
Definition okValue (v : string) : bool :=
  match v with
  | EmptyString => false
  | String _ _ => negb (includes "/" v)
  end.

(** One value for each parameter, in order. *)
Fixpoint okValues (sgs : list segment) (vs : list string) : bool :=
  match sgs with
  | [] => match vs with [] => true | _ :: _ => false end
  | Lit _ :: sgs' => okValues sgs' vs
  | Param _ :: sgs' =>
      match vs with
      | v :: vs' => okValue v && okValues sgs' vs'
      | [] => false
      end
  end.

(** The url of a path with its parameters replaced by the values. *)
Fixpoint fill (sgs : list segment) (vs : list string) : string :=
  match sgs with
  | [] => EmptyString
  | Lit w :: sgs' => String "/" (w ++ fill sgs' vs)
  | Param _ :: sgs' =>
      match vs with
      | v :: vs' => String "/" (v ++ fill sgs' vs')
      | [] => String "/" (fill sgs' [])
      end
  end.

Lemma isWord_spec (w : string) :
  isWord w = true -> allChars isWordChar w = true /\ w <> "".
Proof. destruct w; [discriminate | split; [assumption | discriminate]]. Qed.

(** ** The pattern text of a path of segments *)

Lemma replaceStars_pathOf (sgs : list segment) :
  forallb wellFormed sgs = true -> replaceStars (pathOf sgs) = pathOf sgs.
Proof.
  induction sgs as [|sg sgs IH]; simpl; [reflexivity|].
  intro A. apply andb_true_iff in A as [A1 A2].
  destruct sg as [w|name]; simpl in *;
    destruct (isWord_spec _ A1) as [W _].
  - change (Ascii.eqb "/" "*") with false. cbv iota.
    rewrite (replaceStars_word w _ W), (IH A2). reflexivity.
  - change (Ascii.eqb "/" "*") with false.
    change (Ascii.eqb ":" "*") with false. cbv iota.
    rewrite (replaceStars_word name _ W), (IH A2). reflexivity.
Qed.

Lemma replaceStars_withSlash (slash : bool) (sgs : list segment) :
  forallb wellFormed sgs = true ->
  replaceStars (withSlash slash (pathOf sgs)) = withSlash slash (pathOf sgs).
Proof.
  intro A. destruct slash; simpl.
  - rewrite replaceStars_app, (replaceStars_pathOf _ A). reflexivity.
  - exact (replaceStars_pathOf _ A).
Qed.

Lemma replaceParams_pathOf (sgs : list segment) (tail : string) :
  forallb wellFormed sgs = true ->
  (forall inName, replaceParams inName tail = tail) ->
  forall inName,
    replaceParams inName (pathOf sgs ++ tail) = (patternOf sgs ++ tail)%string.
Proof.
  intros A T. induction sgs as [|sg sgs IH]; intro inName; [apply T|].
  cbn [forallb] in A. apply andb_true_iff in A as [A1 A2].
  specialize (IH A2).
  destruct sg as [w|name]; cbn [pathOf patternOf wellFormed] in *;
    destruct (isWord_spec _ A1) as [W N].
  - change ((String "/" (w ++ pathOf sgs) ++ tail)%string)
      with (String "/" ((w ++ pathOf sgs) ++ tail)).
    change ((String "/" (w ++ patternOf sgs) ++ tail)%string)
      with (String "/" ((w ++ patternOf sgs) ++ tail)).
    rewrite replaceParams_slash, !string_app_assoc.
    rewrite (replaceParams_word w _ W), IH. reflexivity.
  - change ((String "/" (String ":" (name ++ pathOf sgs)) ++ tail)%string)
      with (String "/" (String ":" ((name ++ pathOf sgs) ++ tail))).
    change ((String "/" (paramGroup ++ patternOf sgs) ++ tail)%string)
      with (String "/" ((paramGroup ++ patternOf sgs) ++ tail)).
    rewrite replaceParams_slash, !string_app_assoc.
    rewrite replaceParams_colon.
    + rewrite (replaceParams_name name _ W), IH. reflexivity.
    + destruct name as [|c name]; [contradiction|].
      simpl in W. simpl. now apply andb_true_iff in W as [W _].
Qed.

Lemma replaceParams_withSlash (slash : bool) (sgs : list segment) :
  forallb wellFormed sgs = true ->
  replaceParams false (withSlash slash (pathOf sgs))
  = withSlash slash (patternOf sgs).
Proof.
  intro A. destruct slash; simpl.
  - apply (@replaceParams_pathOf sgs "/" A). intros []; reflexivity.
  - rewrite <- (string_app_nil_r (pathOf sgs)).
    rewrite (@replaceParams_pathOf sgs "" A); [apply string_app_nil_r|].
    intros []; reflexivity.
Qed.

Lemma stripTrailingSlash_word (w : string) :
  isWord w = true -> stripTrailingSlash w = w.
Proof.
  intro A. destruct (isWord_spec _ A) as [W _]. clear A.
  induction w as [|c w IH]; [reflexivity|].
  simpl in W. apply andb_true_iff in W as [W1 W2].
  destruct w as [|d w].
  - simpl. destruct (Ascii.eqb_spec c "/") as [->|_];
      [discriminate W1 | reflexivity].
  - change (stripTrailingSlash (String c (String d w)))
      with (String c (stripTrailingSlash (String d w))).
    now rewrite (IH W2).
Qed.

(** A path of segments does not end with a slash. *)
Lemma stripTrailingSlash_patternOf (sgs : list segment) :
  forallb wellFormed sgs = true ->
  stripTrailingSlash (patternOf sgs) = patternOf sgs.
Proof.
  induction sgs as [|sg sgs IH]; [reflexivity|].
  intro A. cbn [forallb] in A. apply andb_true_iff in A as [A1 A2].
  specialize (IH A2).
  assert (B : forall body,
             body <> "" -> stripTrailingSlash body = body ->
             stripTrailingSlash (String "/" (body ++ patternOf sgs))
             = String "/" (body ++ patternOf sgs)).
  { intros body N S.
    change (String "/" (body ++ patternOf sgs))
      with ("/" ++ (body ++ patternOf sgs))%string.
    destruct sgs as [|sg' sgs'].
    - simpl patternOf. rewrite string_app_nil_r.
      rewrite stripTrailingSlash_app by exact N. now rewrite S.
    - rewrite <- string_app_assoc.
      rewrite stripTrailingSlash_app; [now rewrite IH|].
      destruct sg'; discriminate. }
  destruct sg as [w|name]; cbn [patternOf wellFormed] in *.
  - apply B; [exact (proj2 (isWord_spec _ A1))|].
    exact (stripTrailingSlash_word _ A1).
  - apply B; [discriminate | reflexivity].
Qed.

Lemma stripTrailingSlash_withSlash (slash : bool) (sgs : list segment) :
  forallb wellFormed sgs = true ->
  stripTrailingSlash (withSlash slash (patternOf sgs)) = patternOf sgs.
Proof.
  intro A. destruct slash; simpl.
  - rewrite stripTrailingSlash_app by discriminate. apply string_app_nil_r.
  - exact (stripTrailingSlash_patternOf _ A).
Qed.

Lemma includes_star_word (w rest : string) :
  allChars isWordChar w = true ->
  includes "*" (w ++ rest) = includes "*" rest.
Proof.
  induction w as [|c w IH]; simpl; [reflexivity|].
  intro A. apply andb_true_iff in A as [A1 A2].
  destruct (word_char _ A1) as (_ & _ & ->). exact (IH A2).
Qed.

(** A path of segments has no star. *)
Lemma includes_star_pathOf (slash : bool) (sgs : list segment) :
  forallb wellFormed sgs = true ->
  includes "*" (withSlash slash (pathOf sgs)) = false.
Proof.
  intro A.
  assert (P : forall tail, includes "*" tail = false ->
                           includes "*" (pathOf sgs ++ tail) = false).
  { intros tail T. induction sgs as [|sg sgs IH]; [exact T|].
    cbn [forallb] in A. apply andb_true_iff in A as [A1 A2].
    specialize (IH A2).
    destruct sg as [w|name]; cbn [pathOf wellFormed] in *;
      destruct (isWord_spec _ A1) as [W _].
    - change (includes "*" ((w ++ pathOf sgs) ++ tail) = false).
      now rewrite string_app_assoc, (includes_star_word w _ W).
    - change (includes "*" ((name ++ pathOf sgs) ++ tail) = false).
      now rewrite string_app_assoc, (includes_star_word name _ W). }
  destruct slash; simpl.
  - now apply P.
  - rewrite <- (string_app_nil_r (pathOf sgs)). now apply P.
Qed.

(** ** Reading the pattern of a path of segments *)

Lemma parseFrom_patternOf (sgs : list segment) (st : pstate) :
  forallb wellFormed sgs = true -> pmode st = InPattern ->
  parseFrom st (patternOf sgs)
  = Some (mkP (frames st) (rev (termsOf sgs) ++ cur st) InPattern).
Proof.
  revert st; induction sgs as [|sg sgs IH]; intros st A M.
  - destruct st as [fs c m]; simpl in *; now subst.
  - cbn [forallb] in A. apply andb_true_iff in A as [A1 A2].
    destruct st as [fs c m]; simpl in M; subst m.
    destruct sg as [w|name]; cbn [patternOf termsOf wellFormed] in *;
      destruct (isWord_spec _ A1) as [W _].
    + change (String "/" (w ++ patternOf sgs))
        with ("/" ++ (w ++ patternOf sgs))%string.
      rewrite parseFrom_app.
      change (parseFrom (mkP fs c InPattern) "/")
        with (Some (mkP fs (RChar "/" :: c) InPattern)).
      cbv iota. rewrite parseFrom_app.
      rewrite (parseFrom_word w (mkP fs (RChar "/" :: c) InPattern) W eq_refl).
      cbn [frames cur].
      rewrite (IH (mkP fs (charsRev w (RChar "/" :: c)) InPattern) A2 eq_refl).
      cbn [frames cur]. rewrite charsRev_spec. simpl rev.
      rewrite rev_app_distr, <- !app_assoc. reflexivity.
    + change (String "/" (paramGroup ++ patternOf sgs))
        with ("/([^/]+)" ++ patternOf sgs)%string.
      rewrite parseFrom_app.
      change (parseFrom (mkP fs c InPattern) "/([^/]+)")
        with (Some (mkP fs (paramTerm :: RChar "/" :: c) InPattern)).
      cbv iota.
      rewrite (IH (mkP fs (paramTerm :: RChar "/" :: c) InPattern) A2 eq_refl).
      cbn [frames cur]. simpl rev. rewrite <- !app_assoc. reflexivity.
Qed.

Lemma hasBar_termsOf (sgs : list segment) : hasBar (termsOf sgs) = false.
Proof.
  induction sgs as [|sg sgs IH]; [reflexivity|].
  destruct sg as [w|name]; cbn [termsOf].
  - change (hasBar (chars w ++ termsOf sgs) = false).
    now rewrite hasBar_app, hasBar_chars, IH.
  - exact IH.
Qed.

Lemma variantA_segments (slash : bool) (sgs : list segment) :
  forallb wellFormed sgs = true ->
  RegExp (VariantA.regexStr (withSlash slash (pathOf sgs)))
  = Some (RSeq (termsOf sgs ++ slashTerm slash ++ [REol])).
Proof.
  intro A. unfold RegExp, VariantA.regexStr.
  rewrite (@replaceStars_withSlash slash _ A), (@replaceParams_withSlash slash _ A).
  assert (C : collect (termsOf sgs ++ slashTerm slash ++ [REol])
              = RSeq (termsOf sgs ++ slashTerm slash ++ [REol])).
  { apply collect_noBar. rewrite hasBar_app, hasBar_termsOf.
    now destruct slash. }
  destruct slash; cbn [withSlash slashTerm] in *.
  - rewrite string_app_assoc, parseFrom_app.
    rewrite (@parseFrom_patternOf sgs start A eq_refl).
    cbn. unfold finish; simpl.
    rewrite app_nil_r, rev_involutive, <- app_assoc. now rewrite C.
  - rewrite parseFrom_app.
    rewrite (@parseFrom_patternOf sgs start A eq_refl).
    cbn. unfold finish; simpl.
    rewrite app_nil_r, rev_involutive.
    change ([] ++ [REol]) with [REol] in C. now rewrite C.
Qed.

Lemma variantB_segments (slash : bool) (sgs : list segment) :
  forallb wellFormed sgs = true ->
  RegExp (VariantB.Matcher.regexStr (withSlash slash (pathOf sgs)))
  = Some (RSeq (RBol :: termsOf sgs ++ [ROpt (RChar "/"); REol])).
Proof.
  intro A. unfold RegExp, VariantB.Matcher.regexStr.
  rewrite (@replaceStars_withSlash slash _ A), (@replaceParams_withSlash slash _ A).
  rewrite (@stripTrailingSlash_withSlash slash _ A).
  set (q := patternOf sgs).
  change ("^" ++ q ++ "/?$")%string with (String "^" (q ++ "/?$")).
  simpl parseFrom. change (step "^" start) with (Some (push RBol start)).
  cbv iota. rewrite parseFrom_app. subst q.
  rewrite (@parseFrom_patternOf sgs (push RBol start) A eq_refl).
  cbn. unfold finish; simpl.
  rewrite rev_app_distr, rev_involutive. simpl.
  rewrite <- !app_assoc. simpl.
  rewrite collect_noBar; [reflexivity|].
  change (hasBar (termsOf sgs ++ [ROpt (RChar "/"); REol]) = false).
  now rewrite hasBar_app, hasBar_termsOf.
Qed.

(** ** What the terms of a path of segments match *)

Lemma okValue_spec (v : string) :
  okValue v = true <-> v <> "" /\ allChars notSlash v = true.
Proof.
  unfold okValue. rewrite notSlash_includes. destruct v as [|c v].
  - split; [discriminate | intros [N _]; contradiction].
  - split; [intro H; split; [discriminate | exact H] | intros [_ H]; exact H].
Qed.

(** The terms of a path of segments consume a url of that path, with one
    value for each parameter, and nothing else. *)
Lemma matchSeq_termsOf (sgs : list segment) :
  forallb wellFormed sgs = true ->
  forall (K : pos -> bool) (b : bool) (s : string),
    (forall b' r, K (b', r) = K (false, r)) ->
    matchSeq (termsOf sgs) K (b, s) = true <->
    exists vs r,
      okValues sgs vs = true /\ s = (fill sgs vs ++ r)%string
      /\ K (false, r) = true.
Proof.
  induction sgs as [|sg sgs IH]; intros W K b s HK.
  - simpl. rewrite HK. split.
    + intro H. now exists [], s.
    + intros (vs & r & O & -> & H). exact H.
  - cbn [forallb] in W. apply andb_true_iff in W as [W1 W2].
    specialize (IH W2).
    destruct sg as [w|name]; cbn [wellFormed] in W1;
      destruct (isWord_spec _ W1) as [Ww Nw].
    + (* a word *)
      change (matchSeq (termsOf (Lit w :: sgs)) K (b, s))
        with (oneChar (Ascii.eqb "/")
                (matchSeq (chars w ++ termsOf sgs) K) (b, s)).
      unfold oneChar. cbn [rest snd]. destruct s as [|c s].
      * split; [discriminate|]. intros (vs & r & _ & E & _). discriminate E.
      * rewrite andb_true_iff, matchSeq_app, matchSeq_chars.
        destruct w as [|x w]; [contradiction|].
        destruct (afterPrefix (String x w) s) as [s2|] eqn:A.
        -- apply afterPrefix_Some in A. subst s.
           rewrite (IH K false s2 HK). split.
           ++ intros (Hc & vs & r & O & -> & Kr).
              apply Ascii.eqb_eq in Hc. subst c.
              exists vs, r. split; [exact O|]. split; [|exact Kr].
              cbn [fill]. simpl. now rewrite string_app_assoc.
           ++ intros (vs & r & O & E & Kr). cbn [fill okValues] in *.
              simpl in E. injection E as Ec E.
              rewrite string_app_assoc in E.
              apply string_app_inv_head in E.
              split; [subst c; reflexivity|]. now exists vs, r.
        -- split; [intros [_ H]; discriminate H|].
           intros (vs & r & O & E & Kr). exfalso. cbn [fill] in E.
           simpl in E. injection E as _ E. rewrite string_app_assoc in E.
           assert (A' : afterPrefix (String x w) s = Some (fill sgs vs ++ r)%string).
           { apply afterPrefix_Some. simpl. now rewrite E. }
           congruence.
    + (* a parameter *)
      change (matchSeq (termsOf (Param name :: sgs)) K (b, s))
        with (oneChar (Ascii.eqb "/")
                (oneChar notSlash
                   (fun p1 => starOf (oneChar notSlash)
                                (matchSeq (termsOf sgs) K)
                                (String.length (rest p1)) p1)) (b, s)).
      unfold oneChar at 1. cbn [rest snd]. destruct s as [|c s].
      * split; [discriminate|]. intros (vs & r & O & E & _).
        destruct vs; discriminate E.
      * unfold oneChar at 1. cbn [rest snd]. destruct s as [|d s].
        -- rewrite andb_false_r. split; [discriminate|].
           intros (vs & r & O & E & _). exfalso.
           destruct vs as [|v vs]; [discriminate O|].
           cbn [okValues] in O. apply andb_true_iff in O as [O _].
           destruct v; [discriminate O | discriminate E].
        -- rewrite !andb_true_iff, star_chars by (cbn [rest snd]; lia). split.
           ++ intros (Hc & Hd & a & r' & -> & Oa & Kr).
              apply Ascii.eqb_eq in Hc. subst c.
              apply (IH K) in Kr as (vs & r & O & -> & Kr); [|exact HK].
              exists (String d a :: vs), r. split; [|split; [|exact Kr]].
              ** cbn [okValues]. rewrite O, andb_true_r.
                 apply okValue_spec. split; [discriminate|].
                 simpl. now rewrite Hd, Oa.
              ** cbn [fill]. simpl. now rewrite string_app_assoc.
           ++ intros (vs & r & O & E & Kr).
              destruct vs as [|v vs]; [discriminate O|].
              cbn [okValues] in O. apply andb_true_iff in O as [Ov O].
              apply okValue_spec in Ov as [Nv Av].
              destruct v as [|d' a]; [contradiction|].
              cbn [fill] in E. simpl in E. injection E as Ec Ed E.
              rewrite string_app_assoc in E. subst c d'.
              simpl in Av. apply andb_true_iff in Av as [Ad Aa].
              split; [reflexivity|]. split; [exact Ad|].
              exists a, (fill sgs vs ++ r)%string.
              split; [exact E|]. split; [exact Aa|].
              apply (IH K); [exact HK|]. now exists vs, r.
Qed.

(** ** A match that may begin anywhere *)

Lemma search_spec (r : re) (P : string -> Prop) :
  (forall b s, matchAt r (b, s) = true <-> P s) ->
  forall b s,
    search r b s = true <-> exists pre suf, s = (pre ++ suf)%string /\ P suf.
Proof.
  intros H b s. revert b. induction s as [|c s IH]; intro b; simpl.
  - rewrite orb_false_r, H. split.
    + intro Ps. now exists "", "".
    + intros (pre & suf & E & Ps).
      destruct pre; [simpl in E; now subst suf | discriminate E].
  - rewrite orb_true_iff, H, IH. split.
    + intros [Ps|(pre & suf & -> & Ps)].
      * now exists "", (String c s).
      * now exists (String c pre), suf.
    + intros (pre & suf & E & Ps). destruct pre as [|d pre]; simpl in E.
      * left. now subst suf.
      * right. injection E as _ ->. now exists pre, suf.
Qed.

(** A pattern that matches the empty text at the end of the url matches
    every url. *)
Lemma search_at_end (r : re) :
  (forall b, matchAt r (b, "") = true) -> forall b s, search r b s = true.
Proof.
  intros H b s. revert b. induction s as [|c s IH]; intro b; simpl.
  - now rewrite H.
  - rewrite IH. apply orb_true_r.
Qed.

Lemma test_segments_B (sgs : list segment) (url : string) :
  forallb wellFormed sgs = true ->
  test (RSeq (RBol :: termsOf sgs ++ [ROpt (RChar "/"); REol])) url = true <->
  exists vs,
    okValues sgs vs = true
    /\ (url = fill sgs vs \/ url = (fill sgs vs ++ "/")%string).
Proof.
  intro W. rewrite test_bol, matchSeq_app.
  change (matchSeq [ROpt (RChar "/"); REol] (fun _ => true)) with slashThenEnd.
  rewrite (@matchSeq_termsOf sgs W slashThenEnd true url)
    by (intros b' r; reflexivity).
  split.
  - intros (vs & r & O & -> & K). exists vs. split; [exact O|].
    apply slashThenEnd_spec in K. unfold rest in K; simpl in K.
    destruct K as [->| ->]; [left | right]; [|reflexivity].
    now rewrite string_app_nil_r.
  - intros (vs & O & [->| ->]).
    + exists vs, "". rewrite string_app_nil_r.
      split; [exact O|]. split; [reflexivity|].
      apply slashThenEnd_spec. now left.
    + exists vs, "/". split; [exact O|]. split; [reflexivity|].
      apply slashThenEnd_spec. now right.
Qed.

Lemma test_segments_A (slash : bool) (sgs : list segment) (url : string) :
  forallb wellFormed sgs = true ->
  test (RSeq (termsOf sgs ++ slashTerm slash ++ [REol])) url = true <->
  exists pre vs,
    okValues sgs vs = true
    /\ url = (pre ++ withSlash slash (fill sgs vs))%string.
Proof.
  intro W. unfold test.
  rewrite (@search_spec _
             (fun suf => exists vs, okValues sgs vs = true
                                    /\ suf = withSlash slash (fill sgs vs))).
  - split.
    + intros (pre & suf & -> & vs & O & ->). now exists pre, vs.
    + intros (pre & vs & O & ->). exists pre. eexists. split; [reflexivity|].
      now exists vs.
  - intros b s. unfold matchAt. rewrite matchRe_seq, matchSeq_app.
    rewrite (@matchSeq_termsOf sgs W
               (matchSeq (slashTerm slash ++ [REol]) (fun _ => true)) b s)
      by (intros b' r; destruct slash; reflexivity).
    assert (T : forall r,
               matchSeq (slashTerm slash ++ [REol]) (fun _ => true) (false, r)
               = true <-> r = withSlash slash "").
    { intro r. destruct slash; simpl; unfold oneChar; simpl.
      - destruct r as [|c [|d r]]; simpl.
        + split; discriminate.
        + destruct (Ascii.eqb_spec "/" c) as [<-|N]; simpl.
          * split; reflexivity.
          * split; [discriminate|]. intro E. injection E as E. now subst c.
        + rewrite andb_false_r. split; discriminate.
      - destruct r; split; try reflexivity; discriminate. }
    split.
    + intros (vs & r & O & -> & K). apply T in K. subst r.
      exists vs. split; [exact O|].
      destruct slash; simpl; [reflexivity | apply string_app_nil_r].
    + intros (vs & O & ->). exists vs, (withSlash slash "").
      split; [exact O|]. split; [|now apply T].
      destruct slash; simpl; [reflexivity | now rewrite string_app_nil_r].
Qed.

(** C9: for the empty path, for the path "*" and for every path made of
    words and parameters, however many parameters it has (with a slash at
    its end or without), [add] returns in both variants, having pushed
    exactly one entry: the route as given, the regex stated here and, in
    Variant B, the wildcard flag, set for "*" only. Each regex is stated
    with the urls it matches. The empty path: every url in Variant A; the
    empty url and "/" in Variant B. The star: every url in Variant A; in
    Variant B every url without a line terminator. A path of words and
    parameters: in Variant B the urls of the path with one value, not empty
    and without a slash, for each parameter, and one slash after them or
    none; in Variant A the urls that end with such a url. *)
Theorem edge_patterns_compile (sgs : list segment) (slash : bool) :
  forallb wellFormed sgs = true ->
  (addsA "" (RSeq [REol])
   /\ addsB "" (RSeq [RBol; ROpt (RChar "/"); REol]) false
   /\ (forall url, test (RSeq [REol]) url = true)
   /\ (forall url,
         test (RSeq [RBol; ROpt (RChar "/"); REol]) url = true <->
         url = "" \/ url = "/"))
  /\ (addsA "*" (RSeq [RStar RAny; REol])
      /\ addsB "*" (RSeq [RBol; RStar RAny; ROpt (RChar "/"); REol]) true
      /\ (forall url, test (RSeq [RStar RAny; REol]) url = true)
      /\ (forall url,
            test (RSeq [RBol; RStar RAny; ROpt (RChar "/"); REol]) url = true
            <-> noLineTerminator url = true))
  /\ (addsA (withSlash slash (pathOf sgs))
            (RSeq (termsOf sgs ++ slashTerm slash ++ [REol]))
      /\ addsB (withSlash slash (pathOf sgs))
               (RSeq (RBol :: termsOf sgs ++ [ROpt (RChar "/"); REol])) false
      /\ (forall url,
            test (RSeq (termsOf sgs ++ slashTerm slash ++ [REol])) url = true
            <-> exists pre vs,
                  okValues sgs vs = true
                  /\ url = (pre ++ withSlash slash (fill sgs vs))%string)
      /\ (forall url,
            test (RSeq (RBol :: termsOf sgs ++ [ROpt (RChar "/"); REol])) url
            = true
            <-> exists vs,
                  okValues sgs vs = true
                  /\ (url = fill sgs vs
                      \/ url = (fill sgs vs ++ "/")%string))).
Proof.
  intro W. split; [|split].
  - split; [intros m h rm; reflexivity|].
    split; [intros m h rm; reflexivity|].
    split.
    + intro url. apply search_at_end. intro b. reflexivity.
    + intro url. exact (test_literal_B "" url).
  - split; [intros m h rm; reflexivity|].
    split; [intros m h rm; reflexivity|].
    split.
    + intro url. apply search_at_end. intro b. reflexivity.
    + intro url. rewrite test_bol. apply rest_of_wildcard.
  - split; [|split; [|split]].
    + intros m h rm. unfold VariantA.add. cbn [path].
      now rewrite (@variantA_segments slash sgs W).
    + intros m h rm. unfold VariantB.Matcher.add, VariantB.Matcher.compile.
      cbn [path].
      now rewrite (@variantB_segments slash sgs W),
        (@includes_star_pathOf slash sgs W).
    + intro url. exact (@test_segments_A slash sgs url W).
    + intro url. exact (@test_segments_B sgs url W).
Qed.

(** [edge_patterns_compile] on a path with three parameters. *)
Lemma edge_patterns_compile_witness :
  addsB "/orgs/:org/:team/u/:id"
        (RSeq [RBol; RChar "/"; RChar "o"; RChar "r"; RChar "g"; RChar "s";
               RChar "/"; paramTerm; RChar "/"; paramTerm;
               RChar "/"; RChar "u"; RChar "/"; paramTerm;
               ROpt (RChar "/"); REol]) false
  /\ (forall url,
        test (RSeq [RBol; RChar "/"; RChar "o"; RChar "r"; RChar "g"; RChar "s";
                    RChar "/"; paramTerm; RChar "/"; paramTerm;
                    RChar "/"; RChar "u"; RChar "/"; paramTerm;
                    ROpt (RChar "/"); REol]) url = true
        <-> exists vs,
              okValues [Lit "orgs"; Param "org"; Param "team"; Lit "u";
                        Param "id"] vs = true
              /\ (url = fill [Lit "orgs"; Param "org"; Param "team"; Lit "u";
                              Param "id"] vs
                  \/ url = (fill [Lit "orgs"; Param "org"; Param "team";
                                  Lit "u"; Param "id"] vs ++ "/")%string)).
Proof.
  destruct (@edge_patterns_compile
              [Lit "orgs"; Param "org"; Param "team"; Lit "u"; Param "id"]
              false eq_refl)
    as (_ & _ & _ & H1 & _ & H2).
  split; [exact H1 | exact H2].
Defined.

End EdgePatterns.


(* ===================================================================== *)
(** * A registered route is advertised *)
(* ===================================================================== *)

Module RouteThenRefresh.

Import VariantB VariantB.Matcher VariantB.Router RouterFacts Refresh
  Registration RefreshOutput RouterInvariants LookupResolution.

#[local] Arguments String.eqb : simpl never.

(** What [route] registers, [getRoutes] returns: after a [route] that
    returned, the tuple list of the next [getRoutes] has the tuple of the
    route registered, with the method and the handler of the spec and the
    path the app stored: the app's prefix followed by the spec's path, or
    by the spec's prefix and a star. *)
Theorem route_then_getRoutes (this this1 this2 : HttpRouterWithElysia)
    (spec : RouteSpec) (L : list ConvexRoute) :
  route spec this = (Return tt, this1) ->
  getRoutes this1 = (Return L, this2) ->
  forall r, In r (registered (config_prefix (_app this)) spec) ->
    In (path r, method r, callable (handler r)) L.
Proof.
  intros R G r I.
  destruct (route_Return_app _ _ R) as (V & _ & E).
  destruct (getRoutes_Return _ G) as (es & C & _ & ->).
  assert (Hm : In (method r) ROUTABLE_HTTP_METHODS).
  { apply isRoutable_In. unfold staticViolation, methodOf in V.
    unfold registered in I.
    destruct spec as [[h|] [m|] [p|] [pre|]]; simpl in *;
      try contradiction; destruct I as [<-|[]]; simpl;
      apply orb_false_iff in V as [V _]; apply orb_false_iff in V as [_ V];
      now apply negb_false_iff in V. }
  destruct (compileAll_In _ C) as [I1 _].
  destruct (I1 (withMethod r (method r))) as (e & Ce & Ie).
  - apply in_expansion. exists (method r), r. repeat split; try assumption.
    + rewrite E. apply in_or_app. now right.
    + unfold selects. now rewrite String.eqb_refl.
  - rewrite toConvexRoutes_app. apply in_or_app. right.
    unfold toConvexRoutes. apply in_map_iff. exists e.
    destruct (compile_route _ Ce) as [-> _]. now split.
Qed.

(** [route_then_getRoutes] for the prefix "/a/" registered in the app with
    the prefix "/api": the tuple advertised is that of "/api/a/*". *)
Lemma route_then_getRoutes_witness :
  fst (getRoutes (snd (route prefixSpec (new apiApp))))
  = Return [("/api/a/*", "GET", Fn 9)]
  /\ In ("/api/a/*", "GET", Fn 9) [("/api/a/*", "GET", Fn 9)].
Proof.
  split; [vm_compute; reflexivity|].
  apply (@route_then_getRoutes
           (new apiApp)
           (snd (route prefixSpec (new apiApp)))
           (snd (getRoutes (snd (route prefixSpec (new apiApp)))))
           prefixSpec [("/api/a/*", "GET", Fn 9)]
           eq_refl eq_refl
           (mkRoute "GET" "/api/a/*" (HFunction 9))).
  now left.
Defined.

(** [router_only_appends] on a [route] that raises: nothing is added to
    the app. *)
Lemma router_only_appends_witness :
  (exists added,
      _routeMatcher (snd (route postA (snd (route postA (new (mkApp []))))))
      = _routeMatcher (snd (route postA (new (mkApp [])))) ++ added)
  /\ exists more,
       routes (_app (snd (route postA (snd (route postA (new (mkApp [])))))))
       = routes (_app (snd (route postA (new (mkApp []))))) ++ more
       /\ length more <= 1.
Proof.
  destruct (router_only_appends
              (snd (route postA (new (mkApp []))))
              (snd (route postA (snd (route postA (new (mkApp [])))))))
    as (_ & _ & H).
  apply (H postA (fst (route postA (snd (route postA (new (mkApp []))))))).
  vm_compute. reflexivity.
Defined.

End RouteThenRefresh.
